(** * SQLite recovery utilities: a shallow embedding of [sqlite_recovery.py]

    The development follows the script function by function:
    [read_varint], [decode_serial_type], [hex_dump], [parse_cell] and the
    in-memory part of [analyze_database].  Python integers are [Z], a
    [bytes] object is a [list byte], Python's [None] is [None] of an
    [option], and a Python exception is the [Raise] case of [result].
    Subscripts and slices follow Python's rules, negative indices included,
    so every function is modelled on all of [Z]. *)

From Stdlib Require Import Strings.String Strings.Ascii.
From Stdlib Require Numbers.DecimalString Numbers.HexadecimalString.
From Stdlib Require Import ZArith List Bool Lia.
From Stdlib Require Import Strings.Byte.
Import ListNotations.

Local Open Scope Z_scope.

(** ** Exceptions *)

Inductive exn : Type :=
| IndexError      (* a subscript outside the sequence *)
| StructError     (* [struct.unpack] on a buffer of the wrong size *)
| OutOfFuel.      (* never raised by Python: the [while] loop's bound ran out *)

Inductive result (A : Type) : Type :=
| Ok (a : A)
| Raise (e : exn).

Arguments Ok {A} a.
Arguments Raise {A} e.

Definition bind {A B : Type} (m : result A) (k : A -> result B) : result B :=
  match m with
  | Ok a => k a
  | Raise e => Raise e
  end.

Notation "x <- m ;; k" := (bind m (fun x => k))
  (at level 61, m at next level, right associativity).
Notation "' p <- m ;; k" := (bind m (fun r => let p := r in k))
  (at level 61, p pattern, m at next level, right associativity).

(** ** Bytes objects *)

Definition bytes := list byte.

Definition byte_val (b : byte) : Z := Z.of_N (Byte.to_N b).

Definition byte_of_Z (z : Z) : byte :=
  match Byte.of_N (Z.to_N (z mod 256)) with
  | Some b => b
  | None => x00
  end.

Definition bytes_of (l : list Z) : bytes := map byte_of_Z l.

Definition len {A : Type} (l : list A) : Z := Z.of_nat (length l).

(** [s[k]]: a negative [k] counts from the end, anything outside
    [-len(s) .. len(s)-1] raises [IndexError]. *)
Definition getitem {A : Type} (s : list A) (k : Z) : result A :=
  let k' := if k <? 0 then k + len s else k in
  if k' <? 0 then Raise IndexError
  else match nth_error s (Z.to_nat k') with
       | Some a => Ok a
       | None => Raise IndexError
       end.

(** A slice bound is shifted by the length when negative, then clamped. *)
Definition slice_bound {A : Type} (s : list A) (k : Z) : Z :=
  if k <? 0 then Z.max 0 (k + len s) else Z.min k (len s).

(** [s[a:b]] never raises. *)
Definition slice {A : Type} (s : list A) (a b : Z) : list A :=
  let lo := slice_bound s a in
  let hi := slice_bound s b in
  firstn (Z.to_nat (hi - lo)) (skipn (Z.to_nat lo) s).

(** [s[:b]] *)
Definition slice_to {A : Type} (s : list A) (b : Z) : list A :=
  firstn (Z.to_nat (slice_bound s b)) s.

(** The unsigned big-endian number spelled by a byte string. *)
Definition be_uint (bs : bytes) : Z :=
  fold_left (fun acc b => acc * 256 + byte_val b) bs 0.

(** [struct.unpack('>H', bs)[0]] and friends: the buffer must have exactly
    the size of the format. *)
Definition unpack_unsigned (w : Z) (bs : bytes) : result Z :=
  if len bs =? w then Ok (be_uint bs) else Raise StructError.

Definition unpack_signed (w : Z) (bs : bytes) : result Z :=
  if len bs =? w then
    let u := be_uint bs in
    Ok (if u <? 2 ^ (8 * w - 1) then u else u - 2 ^ (8 * w))
  else Raise StructError.

(** ** read_varint *)

(** The body of [for i in range(9)], [n] iterations being left; the last
    line is the [return] after the loop. *)
Fixpoint read_varint_loop (n : nat) (data : bytes) (offset i value : Z)
  : result (option Z * Z) :=
  match n with
  | O => Ok (Some value, offset + 9)
  | S n' =>
      if offset + i >=? len data then Ok (None, offset)
      else
        byte <- getitem data (offset + i) ;;
        if i =? 8 then
          let value := Z.lor (Z.shiftl value 8) (byte_val byte) in
          Ok (Some value, offset + 9)
        else
          let value := Z.lor (Z.shiftl value 7) (Z.land (byte_val byte) 0x7f) in
          if Z.land (byte_val byte) 0x80 =? 0 then Ok (Some value, offset + i + 1)
          else read_varint_loop n' data offset (i + 1) value
  end.

Definition read_varint (data : bytes) (offset : Z) : result (option Z * Z) :=
  read_varint_loop 9 data offset 0 0.

(** ** Column values *)

(** What a column decodes to.  A float keeps the 64 bits of its IEEE 754
    encoding; a [str] is its list of code points. *)
Inductive value : Type :=
| VInt (z : Z)
| VFloat (bits : Z)
| VBytes (bs : bytes)
| VStr (cps : list Z).

(** *** Text decoding *)

Definition in_range (lo hi b : Z) : bool := (lo <=? b) && (b <=? hi).

Definition is_cont (b : Z) : bool := in_range 0x80 0xBF b.

(** Bounds of the second byte of a three- or four-byte sequence, which
    exclude overlong forms, surrogates and code points above U+10FFFF. *)
Definition second_lo (b0 : Z) : Z :=
  if b0 =? 0xE0 then 0xA0 else if b0 =? 0xF0 then 0x90 else 0x80.

Definition second_hi (b0 : Z) : Z :=
  if b0 =? 0xED then 0x9F else if b0 =? 0xF4 then 0x8F else 0xBF.

(** [bs.decode('utf-8')]: [None] stands for [UnicodeDecodeError]. *)
Fixpoint utf8_decode (bs : bytes) : option (list Z) :=
  match bs with
  | [] => Some []
  | c0 :: t0 =>
      let b0 := byte_val c0 in
      if b0 <? 0x80 then option_map (cons b0) (utf8_decode t0)
      else if in_range 0xC2 0xDF b0 then
        match t0 with
        | c1 :: t1 =>
            let b1 := byte_val c1 in
            if is_cont b1
            then option_map (cons ((b0 - 0xC0) * 64 + (b1 - 0x80))) (utf8_decode t1)
            else None
        | _ => None
        end
      else if in_range 0xE0 0xEF b0 then
        match t0 with
        | c1 :: c2 :: t2 =>
            let b1 := byte_val c1 in
            let b2 := byte_val c2 in
            if in_range (second_lo b0) (second_hi b0) b1 && is_cont b2
            then option_map
                   (cons ((b0 - 0xE0) * 4096 + (b1 - 0x80) * 64 + (b2 - 0x80)))
                   (utf8_decode t2)
            else None
        | _ => None
        end
      else if in_range 0xF0 0xF4 b0 then
        match t0 with
        | c1 :: c2 :: c3 :: t3 =>
            let b1 := byte_val c1 in
            let b2 := byte_val c2 in
            let b3 := byte_val c3 in
            if in_range (second_lo b0) (second_hi b0) b1 && is_cont b2 && is_cont b3
            then option_map
                   (cons ((b0 - 0xF0) * 262144 + (b1 - 0x80) * 4096
                          + (b2 - 0x80) * 64 + (b3 - 0x80)))
                   (utf8_decode t3)
            else None
        | _ => None
        end
      else None
  end.

(** [bs.decode('latin-1', errors='replace')]: every byte is a code point. *)
Definition latin1_decode (bs : bytes) : list Z := map byte_val bs.

(** The [try ... except UnicodeDecodeError] of the TEXT branch. *)
Definition decode_text (bs : bytes) : list Z :=
  match utf8_decode bs with
  | Some cps => cps
  | None => latin1_decode bs
  end.

(** ** decode_serial_type *)

(** The number of bytes each serial type asks for in [decode_serial_type]
    (and names in [describe_serial_type]). *)
Definition serial_type_width (serial_type : Z) : Z :=
  if serial_type =? 1 then 1
  else if serial_type =? 2 then 2
  else if serial_type =? 3 then 3
  else if serial_type =? 4 then 4
  else if serial_type =? 5 then 6
  else if serial_type =? 6 then 8
  else if serial_type =? 7 then 8
  else if (serial_type >=? 12) && (serial_type mod 2 =? 0) then (serial_type - 12) / 2
  else if (serial_type >=? 13) && (serial_type mod 2 =? 1) then (serial_type - 13) / 2
  else 0.

Definition decode_serial_type (serial_type : Z) (data : bytes) (offset : Z)
  : result (option value * Z) :=
  (* NULL *)
  if serial_type =? 0 then Ok (None, offset)
  (* 8-bit signed integer *)
  else if serial_type =? 1 then
    if offset + 1 >? len data then Ok (None, offset)
    else
      v <- unpack_signed 1 (slice data offset (offset + 1)) ;;
      Ok (Some (VInt v), offset + 1)
  (* 16-bit signed integer *)
  else if serial_type =? 2 then
    if offset + 2 >? len data then Ok (None, offset)
    else
      v <- unpack_signed 2 (slice data offset (offset + 2)) ;;
      Ok (Some (VInt v), offset + 2)
  (* 24-bit signed integer *)
  else if serial_type =? 3 then
    if offset + 3 >? len data then Ok (None, offset)
    else
      let bytes_val := slice data offset (offset + 3) in
      b0 <- getitem bytes_val 0 ;;
      b1 <- getitem bytes_val 1 ;;
      b2 <- getitem bytes_val 2 ;;
      let v := Z.lor (Z.lor (Z.shiftl (byte_val b0) 16) (Z.shiftl (byte_val b1) 8))
                     (byte_val b2) in
      let v := if Z.land v 0x800000 =? 0 then v else v - 0x1000000 in
      Ok (Some (VInt v), offset + 3)
  (* 32-bit signed integer *)
  else if serial_type =? 4 then
    if offset + 4 >? len data then Ok (None, offset)
    else
      v <- unpack_signed 4 (slice data offset (offset + 4)) ;;
      Ok (Some (VInt v), offset + 4)
  (* 48-bit signed integer *)
  else if serial_type =? 5 then
    if offset + 6 >? len data then Ok (None, offset)
    else
      let bytes_val := slice data offset (offset + 6) in
      let v := fold_left (fun v b => Z.lor (Z.shiftl v 8) (byte_val b)) bytes_val 0 in
      let v := if Z.land v 0x800000000000 =? 0 then v else v - 0x1000000000000 in
      Ok (Some (VInt v), offset + 6)
  (* 64-bit signed integer *)
  else if serial_type =? 6 then
    if offset + 8 >? len data then Ok (None, offset)
    else
      v <- unpack_signed 8 (slice data offset (offset + 8)) ;;
      Ok (Some (VInt v), offset + 8)
  (* 64-bit IEEE 754 float *)
  else if serial_type =? 7 then
    if offset + 8 >? len data then Ok (None, offset)
    else
      v <- unpack_unsigned 8 (slice data offset (offset + 8)) ;;
      Ok (Some (VFloat v), offset + 8)
  (* Integer constant 0 *)
  else if serial_type =? 8 then Ok (Some (VInt 0), offset)
  (* Integer constant 1 *)
  else if serial_type =? 9 then Ok (Some (VInt 1), offset)
  (* BLOB (even N >= 12) *)
  else if (serial_type >=? 12) && (serial_type mod 2 =? 0) then
    let length := (serial_type - 12) / 2 in
    if offset + length >? len data then Ok (None, offset)
    else Ok (Some (VBytes (slice data offset (offset + length))), offset + length)
  (* TEXT (odd N >= 13) *)
  else if (serial_type >=? 13) && (serial_type mod 2 =? 1) then
    let length := (serial_type - 13) / 2 in
    if offset + length >? len data then Ok (None, offset)
    else Ok (Some (VStr (decode_text (slice data offset (offset + length)))),
             offset + length)
  else Ok (None, offset).

(** ** hex_dump *)

(** The rows of the dump: the offset printed in front of a row and the
    bytes of the row.  The label line and the formatting of a row into
    text are left out. *)
Fixpoint hex_dump_rows (starts : list Z) (data : bytes) (offset : Z)
  : list (Z * bytes) :=
  match starts with
  | [] => []
  | i :: rest =>
      if offset + i >=? len data then []
      else (offset + i, slice data (offset + i) (Z.min (offset + i + 16) (len data)))
             :: hex_dump_rows rest data offset
  end.

(** [range(0, length, 16)] *)
Definition range16 (length : Z) : list Z :=
  map (fun k => 16 * Z.of_nat k) (seq 0 (Z.to_nat ((length + 15) / 16))).

Definition hex_dump (data : bytes) (offset length : Z) : list (Z * bytes) :=
  hex_dump_rows (range16 length) data offset.

(** ** parse_cell *)

Record cell : Type := Cell { row_id : Z; columns : list (option value) }.

(** [while current < header_end]: one more serial type per turn, until the
    header ends or a varint cannot be read.  No turn is taken at or past
    the end of the buffer and each taken turn moves [current] forward, so
    the bound computed in [serial_types_bound] is never reached. *)
Fixpoint read_serial_types (fuel : nat) (data : bytes) (current header_end : Z)
  (serial_types : list Z) : result (list Z) :=
  match fuel with
  | O => Raise OutOfFuel
  | S fuel' =>
      if current <? header_end then
        '(serial_type, current') <- read_varint data current ;;
        match serial_type with
        | None => Ok serial_types
        | Some st =>
            read_serial_types fuel' data current' header_end (serial_types ++ [st])
        end
      else Ok serial_types
  end.

Definition serial_types_bound (data : bytes) (current : Z) : nat :=
  S (Z.to_nat (len data - current)).

(** [for i, st in enumerate(serial_types)] *)
Fixpoint decode_columns (data : bytes) (serial_types : list Z) (body_offset : Z)
  (columns : list (option value)) : result (list (option value) * Z) :=
  match serial_types with
  | [] => Ok (columns, body_offset)
  | st :: rest =>
      '(v, body_offset') <- decode_serial_type st data body_offset ;;
      decode_columns data rest body_offset' (columns ++ [v])
  end.

(** The second half of [parse_cell], from [# Read serial types] on. *)
Definition parse_record (data : bytes) (row_id header_start header_end : Z)
  : result (option cell) :=
  serial_types <-
    read_serial_types (serial_types_bound data header_start) data
                      header_start header_end [] ;;
  '(columns, _) <- decode_columns data serial_types header_end [] ;;
  Ok (Some (Cell row_id columns)).

(** [parse_cell], without the printing done under [verbose]. *)
Definition parse_cell (data : bytes) (offset : Z) : result (option cell) :=
  (* Read payload size *)
  '(payload_size, pos) <- read_varint data offset ;;
  match payload_size with
  | None => Ok None
  | Some _ =>
      (* Read row ID *)
      '(row_id, pos) <- read_varint data pos ;;
      match row_id with
      | None => Ok None
      | Some row_id =>
          (* Read header size *)
          '(header_size, header_start) <- read_varint data pos ;;
          match header_size with
          | None => Ok None
          | Some header_size =>
              (* Calculate header end *)
              let header_end := pos + header_size in
              parse_record data row_id header_start header_end
          end
      end
  end.

(** ** analyze_database *)

Inductive page_kind : Type :=
| InteriorIndex | InteriorTable | LeafIndex | LeafTable | Unknown.

(** [type_names.get(page_type, 'Unknown')] *)
Definition type_name (page_type : Z) : page_kind :=
  if page_type =? 0x02 then InteriorIndex
  else if page_type =? 0x05 then InteriorTable
  else if page_type =? 0x0a then LeafIndex
  else if page_type =? 0x0d then LeafTable
  else Unknown.

(** b'SQLite' *)
Definition magic : bytes := [x53; x51; x4c; x69; x74; x65].

Definition bytes_eqb (a b : bytes) : bool :=
  if list_eq_dec Byte.byte_eq_dec a b then true else false.

(** One line of the [Cell pointers:] listing. *)
Record pointer_line : Type :=
  PointerLine { cell_index : Z; cell_ptr : Z; ptr_valid : bool }.

(** What one run prints, field by field in the order of the printing.
    [first_cell] is [None] when [parse_cell] is not called, and otherwise
    holds what it returned. *)
Record report : Type := Report {
  file_size : Z;
  header_present : bool;
  page_size : option Z;
  first_bytes : list (Z * bytes);
  page_type : option Z;
  page_type_name : option page_kind;
  num_cells : option Z;
  cell_pointers : list pointer_line;
  first_cell : option (option cell)
}.

(** [for i in range(min(num_cells, 20))], over the list of the [i]. *)
Fixpoint list_pointers (indices : list Z) (data : bytes) (header_offset : Z)
  : result (list pointer_line) :=
  match indices with
  | [] => Ok []
  | i :: rest =>
      let ptr_offset := header_offset + 8 + i * 2 in
      if ptr_offset + 2 <=? len data then
        ptr <- unpack_unsigned 2 (slice data ptr_offset (ptr_offset + 2)) ;;
        lines <- list_pointers rest data header_offset ;;
        Ok (PointerLine i ptr (ptr <? len data) :: lines)
      else list_pointers rest data header_offset
  end.

(** [range(n)] *)
Definition range (n : Z) : list Z := map Z.of_nat (seq 0 (Z.to_nat n)).

(** [page_type == t], where [page_type] may be [None] *)
Definition page_type_is (page_type : option Z) (t : Z) : bool :=
  match page_type with
  | Some p => p =? t
  | None => false
  end.

(** [analyze_database] from the line after [data = f.read()], on the
    buffer that was read. *)
Definition analyze_buffer (data : bytes) : result report :=
  (* Check header *)
  '(present, page_size, header_offset) <-
    (if bytes_eqb (slice_to data 6) magic then
       page_size <- unpack_unsigned 2 (slice data 16 18) ;;
       Ok (true, Some page_size, 100)
     else Ok (false, None, 0)) ;;
  let dump := hex_dump data 0 128 in
  (* Look for page type *)
  page_type <-
    (if header_offset <? len data then
       b <- getitem data header_offset ;; Ok (Some (byte_val b))
     else Ok None) ;;
  let name := option_map type_name page_type in
  (* For leaf table pages, extract cell info *)
  if page_type_is page_type 0x0d then
      num_cells <-
        unpack_unsigned 2 (slice data (header_offset + 3) (header_offset + 5)) ;;
      pointers <- list_pointers (range (Z.min num_cells 20)) data header_offset ;;
      (* Parse first cell with verbose output *)
      first <-
        (if num_cells >? 0 then
           let first_ptr_offset := header_offset + 8 in
           first_ptr <-
             unpack_unsigned 2 (slice data first_ptr_offset (first_ptr_offset + 2)) ;;
           if first_ptr <? len data then
             r <- parse_cell data first_ptr ;; Ok (Some r)
           else Ok None
         else Ok None) ;;
      Ok (Report (len data) present page_size dump page_type name
                 (Some num_cells) pointers first)
  else
      Ok (Report (len data) present page_size dump page_type name None [] None).

(** The cells a run decodes: [parse_cell] is called once, on the first
    pointer of the page. *)
Definition decoded_cells (r : report) : list cell :=
  match first_cell r with
  | Some (Some c) => [c]
  | _ => []
  end.

(** ** The serial types of a record header, as a relation

    [header_types data current header_end sts] describes one run of the
    [while] loop of [parse_cell] that starts at [current] and collects
    [sts], without any bound on the number of turns. *)
Inductive header_types (data : bytes) (header_end : Z) : Z -> list Z -> Prop :=
| header_done current :
    header_end <= current ->
    header_types data header_end current []
| header_break current current' :
    current < header_end ->
    read_varint data current = Ok (None, current') ->
    header_types data header_end current []
| header_next current st current' sts :
    current < header_end ->
    read_varint data current = Ok (Some st, current') ->
    header_types data header_end current' sts ->
    header_types data header_end current (st :: sts).

(** ** A varint encoder *)

(** Modelled from the spec: the bytes before the last one of an encoding,
    [n] groups of seven bits of [v], most significant first, each with the
    continuation flag set. *)
Fixpoint continued_groups (n : nat) (v : Z) : list Z :=
  match n with
  | O => []
  | S n' => continued_groups n' (v / 128) ++ [0x80 + v mod 128]
  end.

(** Modelled from the spec: the number of bytes the 7-bit rule gives a
    value, eight bytes carrying 56 bits and a ninth being the cap. *)
Definition varint_width (v : Z) : nat :=
  if v <? 2 ^ 7 then 1
  else if v <? 2 ^ 14 then 2
  else if v <? 2 ^ 21 then 3
  else if v <? 2 ^ 28 then 4
  else if v <? 2 ^ 35 then 5
  else if v <? 2 ^ 42 then 6
  else if v <? 2 ^ 49 then 7
  else if v <? 2 ^ 56 then 8
  else 9.

(** Modelled from the spec: the varint encoder, which the script does not
    have (it only reads varints).  Seven data bits per byte with the
    continuation flag in the high bit for bytes 1 to 8, the flag being
    clear on the last byte; a ninth byte, when the value needs more than
    56 bits, carries the low eight bits whole. *)
Definition encode_varint (v : Z) : bytes :=
  if v <? 2 ^ 56 then
    bytes_of (continued_groups (varint_width v - 1) (v / 128) ++ [v mod 128])
  else
    bytes_of (continued_groups 8 (v / 256) ++ [v mod 256]).

(** ** A synthetic leaf-table page

    4096 bytes, no file header in front: page type [0x0d], two cells, the
    pointer array at byte 8, the cells at the end of the page.  Each record
    has an INTEGER column (serial type 1) and a TEXT column of two bytes
    (serial type 17). *)
Definition cell_one : bytes := bytes_of [6; 1; 3; 1; 17; 42; 104; 105].
Definition cell_two : bytes := bytes_of [6; 2; 3; 1; 17; 7; 121; 111].

Definition leaf_page : bytes :=
  bytes_of [0x0d; 0; 0; 0; 2; 0x0f; 0xf0; 0; 0x0f; 0xf8; 0x0f; 0xf0]
    ++ repeat x00 4068 ++ cell_two ++ cell_one.

Definition record_one : cell := Cell 1 [Some (VInt 42); Some (VStr [104; 105])].
Definition record_two : cell := Cell 2 [Some (VInt 7); Some (VStr [121; 111])].

(** ** Two's complement

    The signed reading of a field of [bits] bits whose unsigned big-endian
    value is [u]: [u - 2^bits] when the top bit of the field is set, [u]
    when it is clear. *)
Definition sign_extend (bits u : Z) : Z :=
  if Z.testbit u (bits - 1) then u - 2 ^ bits else u.

(** ** Where the varints of a cell are read

    [next_offset] is the offset [read_varint] hands back, at which the
    caller reads on; [varint_missing] tells that no value came out. *)
Definition next_offset (data : bytes) (offset : Z) : Z :=
  match read_varint data offset with
  | Ok (_, offset') => offset'
  | Raise _ => offset
  end.

Definition varint_missing (data : bytes) (offset : Z) : bool :=
  match read_varint data offset with
  | Ok (Some _, _) => false
  | _ => true
  end.

(** ** Text output

    The strings the script builds: [str(n)] and the format specifications
    [0Nx] and [<N] of its f-strings. *)

(** [f"{z}"] *)
Definition dec (z : Z) : String.string :=
  DecimalString.NilZero.string_of_int (Z.to_int z).

(** The lowercase hexadecimal digits of a natural number. *)
Definition hex_digits (z : Z) : String.string :=
  HexadecimalString.NilZero.string_of_uint (N.to_hex_uint (Z.to_N z)).

Fixpoint fill (c : Ascii.ascii) (n : nat) : String.string :=
  match n with
  | O => String.EmptyString
  | S n' => String.String c (fill c n')
  end.

(** [f"{z:0Nx}"]: zeros between the sign and the digits, up to [width]
    characters in all. *)
Definition format_x (width : nat) (z : Z) : String.string :=
  if z <? 0 then
    let digits := hex_digits (- z) in
    String.append "-"%string
      (String.append (fill "0"%char (width - 1 - String.length digits)) digits)
  else
    let digits := hex_digits z in
    String.append (fill "0"%char (width - String.length digits)) digits.

(** [f"{s:<N}"] *)
Definition ljust (width : nat) (s : String.string) : String.string :=
  String.append s (fill " "%char (width - String.length s)).

Definition newline : String.string := String.String (Ascii.ascii_of_nat 10) String.EmptyString.

(** ** describe_serial_type *)

Definition describe_serial_type (serial_type : Z) : String.string :=
  if serial_type =? 0 then "NULL"%string
  else if serial_type =? 1 then "8-bit int (1 byte)"%string
  else if serial_type =? 2 then "16-bit int (2 bytes)"%string
  else if serial_type =? 3 then "24-bit int (3 bytes)"%string
  else if serial_type =? 4 then "32-bit int (4 bytes)"%string
  else if serial_type =? 5 then "48-bit int (6 bytes)"%string
  else if serial_type =? 6 then "64-bit int (8 bytes)"%string
  else if serial_type =? 7 then "64-bit float (8 bytes)"%string
  else if serial_type =? 8 then "Integer 0 (0 bytes)"%string
  else if serial_type =? 9 then "Integer 1 (0 bytes)"%string
  else if (serial_type >=? 12) && (serial_type mod 2 =? 0) then
    let length := (serial_type - 12) / 2 in
    String.append "BLOB ("%string (String.append (dec length) " bytes)"%string)
  else if (serial_type >=? 13) && (serial_type mod 2 =? 1) then
    let length := (serial_type - 13) / 2 in
    String.append "TEXT ("%string (String.append (dec length) " bytes)"%string)
  else
    String.append "Unknown ("%string (String.append (dec serial_type) ")"%string).

(** ** The text of hex_dump

    [hex_dump] above gives the rows; these are the strings made of them. *)

(** [' '.join(f'{b:02x}' for b in chunk)] *)
Definition hex_str (chunk : bytes) : String.string :=
  String.concat " "%string (map (fun b => format_x 2 (byte_val b)) chunk).

(** [chr(b) if 32 <= b < 127 else '.'] *)
Definition ascii_char (b : byte) : Ascii.ascii :=
  if (32 <=? byte_val b) && (byte_val b <? 127) then Ascii.ascii_of_byte b
  else "."%char.

(** [''.join(... for b in chunk)] *)
Definition ascii_str (chunk : bytes) : String.string :=
  String.string_of_list_ascii (map ascii_char chunk).

(** [f"  {offset+i:04x}: {hex_str:<48} {ascii_str}"] *)
Definition dump_line (row : Z * bytes) : String.string :=
  String.append "  "%string
    (String.append (format_x 4 (fst row))
       (String.append ": "%string
          (String.append (ljust 48 (hex_str (snd row)))
             (String.append " "%string (ascii_str (snd row)))))).

(** [f"\n{label} at offset {offset} (0x{offset:04x}):"] *)
Definition label_line (label : String.string) (offset : Z) : String.string :=
  String.append newline
    (String.append label
       (String.append " at offset "%string
          (String.append (dec offset)
             (String.append " (0x"%string
                (String.append (format_x 4 offset) "):"%string))))).

(** The list [lines] at the end of [hex_dump]; the result is
    ['\n'.join(lines)]. *)
Definition hex_dump_lines (data : bytes) (offset length : Z) (label : String.string)
  : list String.string :=
  (if String.eqb label ""%string then [] else [label_line label offset])
    ++ map dump_line (hex_dump data offset length).

Definition hex_dump_text (data : bytes) (offset length : Z) (label : String.string)
  : String.string :=
  String.concat newline (hex_dump_lines data offset length label).

(** ** The value of a run of varint bytes

    Seven bits a byte, most significant group first. *)
Definition groups_value (bs : bytes) : Z :=
  fold_left (fun acc b => acc * 128 + byte_val b mod 128) bs 0.

(** A byte with the continuation flag, [byte & 0x80] being non-zero. *)
Definition flagged (b : byte) : Prop := 128 <= byte_val b.

(** ** Serial types and columns

    The serial types for which some buffer gives a value. *)
Definition decodable (st : Z) : Prop := 1 <= st <= 9 \/ 12 <= st.

(** A code point of Unicode. *)
Definition code_point (c : Z) : Prop := 0 <= c <= 0x10FFFF.

(** The bytes taken by the columns that came out with a value. *)
Fixpoint consumed_width (sts : list Z) (cols : list (option value)) : Z :=
  match sts, cols with
  | st :: sts', Some _ :: cols' => serial_type_width st + consumed_width sts' cols'
  | _ :: sts', None :: cols' => consumed_width sts' cols'
  | _, _ => 0
  end.

(** ** Well-formed cells

    The script only reads cells.  What follows writes them, so that what
    [parse_cell] makes of a cell can be compared with what was stored. *)

(** Modelled from the spec: the [w] bytes of an unsigned big-endian
    field. *)
Fixpoint be_bytes (w : nat) (u : Z) : list Z :=
  match w with
  | O => []
  | S w' => be_bytes w' (u / 256) ++ [u mod 256]
  end.

(** Modelled from the spec: the code points a text may hold, no
    surrogates and nothing above U+10FFFF. *)
Definition scalar_value (cp : Z) : Prop :=
  0 <= cp < 0xD800 \/ 0xE000 <= cp <= 0x10FFFF.

(** Modelled from the spec: the UTF-8 bytes of a code point (TEXT is
    stored as UTF-8). *)
Definition utf8_encode_cp (cp : Z) : list Z :=
  if cp <? 0x80 then [cp]
  else if cp <? 0x800 then [0xC0 + cp / 64; 0x80 + cp mod 64]
  else if cp <? 0x10000 then
    [0xE0 + cp / 4096; 0x80 + (cp / 64) mod 64; 0x80 + cp mod 64]
  else
    [0xF0 + cp / 262144; 0x80 + (cp / 4096) mod 64; 0x80 + (cp / 64) mod 64;
     0x80 + cp mod 64].

(** Modelled from the spec: the UTF-8 bytes of a text. *)
Definition utf8_encode (cps : list Z) : bytes :=
  bytes_of (flat_map utf8_encode_cp cps).

(** Modelled from the spec: a stored column, by the serial types of the
    data model: NULL, an integer on one of the six widths (serial types 1
    to 6), the constants 0 and 1, a float given by its 64 bits, a BLOB, a
    TEXT given by its code points. *)
Inductive column : Type :=
| ColNull
| ColInt (st : Z) (z : Z)
| ColZero
| ColOne
| ColFloat (bits : Z)
| ColBlob (bs : bytes)
| ColText (cps : list Z).

(** Modelled from the spec: the serial type of a stored column. *)
Definition column_type (c : column) : Z :=
  match c with
  | ColNull => 0
  | ColInt st _ => st
  | ColZero => 8
  | ColOne => 9
  | ColFloat _ => 7
  | ColBlob bs => 12 + 2 * len bs
  | ColText cps => 13 + 2 * len (utf8_encode cps)
  end.

(** Modelled from the spec: the bytes of a stored column in the body of
    the record, integers being big-endian two's complement. *)
Definition column_bytes (c : column) : bytes :=
  match c with
  | ColNull | ColZero | ColOne => []
  | ColInt st z =>
      let w := serial_type_width st in
      bytes_of (be_bytes (Z.to_nat w) (z mod 2 ^ (8 * w)))
  | ColFloat bits => bytes_of (be_bytes 8 bits)
  | ColBlob bs => bs
  | ColText cps => utf8_encode cps
  end.

(** Modelled from the spec: the value a stored column stands for; NULL is
    Python's [None]. *)
Definition column_value (c : column) : option value :=
  match c with
  | ColNull => None
  | ColInt _ z => Some (VInt z)
  | ColZero => Some (VInt 0)
  | ColOne => Some (VInt 1)
  | ColFloat bits => Some (VFloat bits)
  | ColBlob bs => Some (VBytes bs)
  | ColText cps => Some (VStr cps)
  end.

(** Modelled from the spec: what a stored column must satisfy to fit its
    encoding. *)
Definition column_ok (c : column) : Prop :=
  match c with
  | ColNull | ColZero | ColOne => True
  | ColInt st z =>
      1 <= st <= 6
      /\ - 2 ^ (8 * serial_type_width st - 1) <= z < 2 ^ (8 * serial_type_width st - 1)
  | ColFloat bits => 0 <= bits < 2 ^ 64
  | ColBlob bs => 12 + 2 * len bs < 2 ^ 64
  | ColText cps =>
      Forall scalar_value cps /\ 13 + 2 * len (utf8_encode cps) < 2 ^ 64
  end.

(** Modelled from the spec: the serial-type varints of the header and the
    column bytes of the body, in column order. *)
Definition cell_types (cols : list column) : bytes :=
  flat_map (fun c => encode_varint (column_type c)) cols.

(** Modelled from the spec: the body of the record. *)
Definition cell_body (cols : list column) : bytes :=
  flat_map column_bytes cols.

(** Modelled from the spec: the header size of a record whose serial-type
    varints take [types_len] bytes.  The size counts the bytes of its own
    varint, which is how [parse_cell] computes the end of the header. *)
Definition header_size_for (types_len : Z) : Z :=
  if types_len + 1 <? 2 ^ 7 then types_len + 1
  else if types_len + 2 <? 2 ^ 14 then types_len + 2
  else if types_len + 3 <? 2 ^ 21 then types_len + 3
  else if types_len + 4 <? 2 ^ 28 then types_len + 4
  else if types_len + 5 <? 2 ^ 35 then types_len + 5
  else if types_len + 6 <? 2 ^ 42 then types_len + 6
  else if types_len + 7 <? 2 ^ 49 then types_len + 7
  else if types_len + 8 <? 2 ^ 56 then types_len + 8
  else types_len + 9.

(** Modelled from the spec: the cell encoding contract,
    [payload_size | row_id | header_size | serial types | column bytes],
    the payload being the header and the body. *)
Definition encode_cell (rid : Z) (cols : list column) : bytes :=
  let types := cell_types cols in
  let body := cell_body cols in
  let header_size := header_size_for (len types) in
  encode_varint (header_size + len body)
    ++ encode_varint rid ++ encode_varint header_size ++ types ++ body.

(** Modelled from the spec: a well-formed cell has a row id of 64 bits,
    columns that fit their encodings and a payload size of 64 bits. *)
Definition cell_ok (rid : Z) (cols : list column) : Prop :=
  0 <= rid < 2 ^ 64
  /\ Forall column_ok cols
  /\ header_size_for (len (cell_types cols)) + len (cell_body cols) < 2 ^ 64.

(** Modelled from the spec: the buffer holds the well-formed cell at the
    pointer. *)
Definition cell_at (data : bytes) (ptr rid : Z) (cols : list column) : Prop :=
  cell_ok rid cols
  /\ 0 <= ptr
  /\ ptr + len (encode_cell rid cols) <= len data
  /\ slice data ptr (ptr + len (encode_cell rid cols)) = encode_cell rid cols.

(** Modelled from the spec: the record a well-formed cell stores, in the
    shape [parse_cell] returns. *)
Definition stored_cell (rid : Z) (cols : list column) : cell :=
  Cell rid (map column_value cols).

(** The synthetic records after a file header: the magic bytes, the rest
    of the 100 header bytes left at zero, the page header at offset 100,
    the pointers counted from the start of the buffer. *)
Definition headed_page : bytes :=
  magic ++ repeat x00 94
    ++ bytes_of [0x0d; 0; 0; 0; 2; 0; 0; 0; 0; 120; 0; 112]
    ++ cell_two ++ cell_one.

(** A page for the pointer listing: two declared cells, the first pointer
    inside the page, the second one outside. *)
Definition listing_page : bytes :=
  bytes_of [0x0d; 0; 0; 0; 2; 0; 0; 0; 0; 12; 0xff; 0xff; 4; 1; 3; 6; 1; 42].

Definition listing_report : report :=
  Report 18 false None (hex_dump listing_page 0 128) (Some 13) (Some LeafTable)
         (Some 2) [PointerLine 0 12 true; PointerLine 1 65535 false]
         (Some (Some (Cell 1 [None; Some (VInt 42)]))).

(** * Properties *)

(** ** Tactics *)

(** Splits a goal along the thresholds of [varint_width]. *)
Ltac width_cases v :=
  unfold varint_width;
  repeat match goal with
         | |- context [v <? ?b] => destruct (Z.ltb_spec v b)
         end;
  try lia; try (simpl; lia).

(** Takes the next [if] of the goal apart. *)
Ltac branch :=
  match goal with
  | |- context [if ?c then _ else _] => destruct c eqn:?
  end.

(** Closes a goal [exists v off', Ok _ = Ok (v, off') /\ _ <= _ /\ _]. *)
Ltac shape_done :=
  eexists _, _; split; [reflexivity | split; [lia | congruence]].

(** Turns boolean tests among the hypotheses into propositions. *)
Ltac bool_hyps :=
  repeat match goal with
         | H : (_ =? _) = true |- _ => apply Z.eqb_eq in H
         | H : (_ =? _) = false |- _ => apply Z.eqb_neq in H
         | H : (_ >? _) = true |- _ => apply Z.gtb_lt in H
         | H : (_ >? _) = false |- _ => rewrite Z.gtb_ltb in H; apply Z.ltb_ge in H
         | H : (_ >=? _) = true |- _ => rewrite Z.geb_leb in H; apply Z.leb_le in H
         | H : (_ >=? _) = false |- _ => rewrite Z.geb_leb in H; apply Z.leb_gt in H
         | H : andb _ _ = true |- _ => apply andb_true_iff in H; destruct H
         | H : andb _ _ = false |- _ => apply andb_false_iff in H
         end.

(** The same for the byte ranges of the text decoder. *)
Ltac range_hyps :=
  unfold is_cont, in_range, second_lo, second_hi in *;
  repeat match goal with
         | H : andb _ _ = true |- _ => apply andb_true_iff in H; destruct H
         | H : (_ <=? _) = true |- _ => apply Z.leb_le in H
         | H : (_ <? _) = true |- _ => apply Z.ltb_lt in H
         | H : context [if ?a =? ?b then _ else _] |- _ =>
             destruct (Z.eqb_spec a b)
         end.

(** Takes the [if] at the head of the left-hand side apart. *)
Ltac step_if :=
  match goal with
  | |- (if ?c then _ else _) = _ => destruct c eqn:?
  end.

(** Turns the tests met on the way into propositions for [lia]. *)
Ltac tests_to_props :=
  repeat match goal with
         | H : andb _ _ = true |- _ => apply andb_true_iff in H; destruct H
         | H : andb _ _ = false |- _ => apply andb_false_iff in H; destruct H
         | H : (_ <? _) = true |- _ => apply Z.ltb_lt in H
         | H : (_ <? _) = false |- _ => apply Z.ltb_ge in H
         | H : (_ <=? _) = true |- _ => apply Z.leb_le in H
         | H : (_ <=? _) = false |- _ => apply Z.leb_gt in H
         end;
  repeat match goal with
         | H : context [if ?a =? ?b then _ else _] |- _ => destruct (Z.eqb_spec a b)
         end.

(** Closes a branch whose tests contradict each other. *)
Ltac absurd_test := exfalso; tests_to_props; lia.

(** ** The error monad *)

Lemma bind_ok {A B : Type} (m : result A) (k : A -> result B) (b : B) :
  bind m k = Ok b -> exists a, m = Ok a /\ k a = Ok b.
Proof. destruct m as [a|e]; simpl; [eauto | discriminate]. Qed.

(** ** Bytes, subscripts and slices *)

Lemma byte_val_range (b : byte) : 0 <= byte_val b < 256.
Proof.
  unfold byte_val. pose proof (Byte.to_N_bounded b). lia.
Qed.

Lemma byte_val_of_Z (z : Z) : 0 <= z < 256 -> byte_val (byte_of_Z z) = z.
Proof.
  intros Hz. unfold byte_val, byte_of_Z.
  rewrite Z.mod_small by lia.
  destruct (Byte.of_N (Z.to_N z)) as [b|] eqn:E.
  - apply Byte.to_of_N in E. rewrite E. lia.
  - apply Byte.of_N_None_iff in E. lia.
Qed.

Lemma len_nonneg {A : Type} (l : list A) : 0 <= len l.
Proof. unfold len. lia. Qed.

Lemma len_app {A : Type} (l1 l2 : list A) : len (l1 ++ l2) = len l1 + len l2.
Proof. unfold len. rewrite length_app. lia. Qed.

Lemma getitem_in_range {A : Type} (s : list A) (k : Z) :
  0 <= k < len s -> exists a, getitem s k = Ok a /\ nth_error s (Z.to_nat k) = Some a.
Proof.
  intros Hk. unfold getitem.
  destruct (k <? 0) eqn:E; [lia|]. rewrite E.
  destruct (nth_error s (Z.to_nat k)) as [a|] eqn:N; [eauto|].
  apply nth_error_None in N. unfold len in Hk. lia.
Qed.

Lemma getitem_middle {A : Type} (pre rest : list A) (a : A) :
  getitem (pre ++ a :: rest) (len pre) = Ok a.
Proof.
  unfold getitem. pose proof (len_nonneg pre).
  destruct (len pre <? 0) eqn:E; [lia|]. rewrite E.
  unfold len. rewrite Nat2Z.id, nth_error_app2, Nat.sub_diag by lia. reflexivity.
Qed.

Lemma slice_length {A : Type} (s : list A) (a b : Z) :
  0 <= a -> a <= b -> b <= len s -> len (slice s a b) = b - a.
Proof.
  intros Ha Hab Hb. unfold slice, slice_bound.
  destruct (a <? 0) eqn:Ea; [lia|]. destruct (b <? 0) eqn:Eb; [lia|].
  unfold len in *. rewrite length_firstn, length_skipn. lia.
Qed.

(** ** Bit operations on bytes *)

Lemma land_shiftl_low (a b n : Z) :
  0 <= n -> 0 <= b < 2 ^ n -> Z.land (Z.shiftl a n) b = 0.
Proof.
  intros Hn Hb. apply Z.bits_inj'. intros k Hk.
  rewrite Z.land_spec, Z.bits_0.
  destruct (Z.lt_ge_cases k n) as [Hlt|Hge].
  - rewrite Z.shiftl_spec_low by lia. reflexivity.
  - assert (Hbit : Z.testbit b k = false).
    { destruct (Z.eq_dec b 0) as [->|Hnz]; [apply Z.bits_0|].
      apply Z.bits_above_log2; [lia|].
      apply Z.log2_lt_pow2; [lia|].
      apply Z.lt_le_trans with (2 ^ n); [lia|].
      apply Z.pow_le_mono_r; lia. }
    rewrite Hbit. apply andb_false_r.
Qed.

Lemma lor_shiftl_add (a b n : Z) :
  0 <= n -> 0 <= b < 2 ^ n -> Z.lor (Z.shiftl a n) b = a * 2 ^ n + b.
Proof.
  intros Hn Hb.
  rewrite <- (Z.shiftl_mul_pow2 a n) by lia.
  rewrite <- Z.lxor_lor by (apply land_shiftl_low; lia).
  symmetry. apply Z.add_nocarry_lxor. apply land_shiftl_low; lia.
Qed.

Lemma byte_low_seven (b : byte) : Z.land (byte_val b) 0x7f = byte_val b mod 128.
Proof. change 0x7f with (Z.ones 7). rewrite Z.land_ones by lia. reflexivity. Qed.

Lemma byte_high_bit (b : byte) :
  (Z.land (byte_val b) 0x80 =? 0) = (byte_val b <? 128).
Proof. destruct b; reflexivity. Qed.

Lemma land_pow2_testbit (v n : Z) :
  0 <= n -> (Z.land v (2 ^ n) =? 0) = negb (Z.testbit v n).
Proof.
  intros Hn.
  assert (H : Z.land v (2 ^ n) = if Z.testbit v n then 2 ^ n else 0).
  { apply Z.bits_inj'. intros k Hk. rewrite Z.land_spec, Z.pow2_bits_eqb by lia.
    destruct (Z.eqb_spec n k) as [->|Hne].
    - destruct (Z.testbit v k) eqn:E; simpl.
      + rewrite Z.pow2_bits_true by lia. reflexivity.
      + rewrite Z.bits_0. reflexivity.
    - rewrite andb_false_r.
      destruct (Z.testbit v n).
      + rewrite Z.pow2_bits_false by lia. reflexivity.
      + rewrite Z.bits_0. reflexivity. }
  rewrite H. destruct (Z.testbit v n); simpl.
  - apply Z.eqb_neq. pose proof (Z.pow_pos_nonneg 2 n). lia.
  - reflexivity.
Qed.

Lemma testbit_top (u n : Z) :
  0 <= n -> 0 <= u < 2 ^ (n + 1) -> Z.testbit u n = (2 ^ n <=? u).
Proof.
  intros Hn Hu.
  rewrite Z.pow_add_r in Hu by lia. change (2 ^ 1) with 2 in Hu.
  pose proof (Z.pow_pos_nonneg 2 n ltac:(lia) Hn) as Hp.
  rewrite Z.testbit_eqb by lia.
  destruct (Z.leb_spec (2 ^ n) u) as [Hle|Hlt].
  - assert (Hq : 1 = u / 2 ^ n) by (apply Z.div_unique with (u - 2 ^ n); lia).
    rewrite <- Hq. reflexivity.
  - rewrite Z.div_small by lia. reflexivity.
Qed.

(** ** Properties of read_varint *)

(** One turn of the loop on a byte that is there, before the ninth. *)
Lemma read_varint_loop_step (n : nat) (data : bytes) (offset i value : Z) (b : byte) :
  offset + i < len data -> getitem data (offset + i) = Ok b -> i <> 8 ->
  read_varint_loop (S n) data offset i value =
    if byte_val b <? 128
    then Ok (Some (value * 128 + byte_val b), offset + i + 1)
    else read_varint_loop n data offset (i + 1) (value * 128 + (byte_val b - 128)).
Proof.
  intros Hlt Hget Hi. cbn [read_varint_loop].
  destruct (offset + i >=? len data) eqn:E; [lia|].
  rewrite Hget. cbn [bind].
  destruct (Z.eqb_spec i 8) as [|_]; [contradiction|].
  rewrite byte_high_bit, byte_low_seven.
  pose proof (byte_val_range b) as Hb.
  rewrite (lor_shiftl_add value (byte_val b mod 128) 7)
    by (try lia; apply Z.mod_pos_bound; lia).
  change (2 ^ 7) with 128.
  destruct (Z.ltb_spec (byte_val b) 128) as [Hs|Hl].
  - rewrite Z.mod_small by lia. reflexivity.
  - replace (byte_val b mod 128) with (byte_val b - 128); [reflexivity|].
    apply Z.mod_unique with 1; lia.
Qed.

(** The turn on the ninth byte. *)
Lemma read_varint_loop_ninth (n : nat) (data : bytes) (offset value : Z) (b : byte) :
  offset + 8 < len data -> getitem data (offset + 8) = Ok b ->
  read_varint_loop (S n) data offset 8 value =
    Ok (Some (value * 256 + byte_val b), offset + 9).
Proof.
  intros Hlt Hget. cbn [read_varint_loop].
  destruct (offset + 8 >=? len data) eqn:E; [lia|].
  rewrite Hget. cbn [bind]. rewrite Z.eqb_refl.
  rewrite (lor_shiftl_add value (byte_val b) 8) by (try lia; apply byte_val_range).
  reflexivity.
Qed.

(** At a position inside or after the buffer, [read_varint] raises nothing:
    either it reports a truncation and leaves the offset alone, or it hands
    back a natural number and an offset further on, still within the
    buffer. *)
Lemma read_varint_loop_shape (data : bytes) (offset : Z) (n : nat) :
  forall i value,
    0 <= offset -> 0 <= i -> i + Z.of_nat n = 8 -> 0 <= value ->
    read_varint_loop (S n) data offset i value = Ok (None, offset)
    \/ exists v off',
        read_varint_loop (S n) data offset i value = Ok (Some v, off')
        /\ offset + i < off' <= len data /\ 0 <= v.
Proof.
  induction n as [|n IH]; intros i value Ho Hi Hn Hv.
  - assert (i = 8) by lia. subst i.
    destruct (Z.lt_ge_cases (offset + 8) (len data)) as [Hlt|Hge].
    + destruct (getitem_in_range data (offset + 8)) as (b & Hget & _); [lia|].
      right. exists (value * 256 + byte_val b), (offset + 9).
      rewrite (read_varint_loop_ninth _ _ _ _ b) by assumption.
      pose proof (byte_val_range b). split; [reflexivity|lia].
    + left. cbn [read_varint_loop].
      destruct (offset + 8 >=? len data) eqn:E; [reflexivity|lia].
  - destruct (Z.lt_ge_cases (offset + i) (len data)) as [Hlt|Hge].
    + destruct (getitem_in_range data (offset + i)) as (b & Hget & _); [lia|].
      rewrite (read_varint_loop_step _ _ _ _ _ b) by (try assumption; lia).
      pose proof (byte_val_range b) as Hb.
      destruct (Z.ltb_spec (byte_val b) 128) as [Hs|Hl].
      * right. exists (value * 128 + byte_val b), (offset + i + 1).
        split; [reflexivity|lia].
      * destruct (IH (i + 1) (value * 128 + (byte_val b - 128)))
          as [Hnone|(v & off' & Hsome & Hoff & Hv')]; try lia.
        -- left. assumption.
        -- right. exists v, off'. split; [assumption|lia].
    + left. cbn [read_varint_loop].
      destruct (offset + i >=? len data) eqn:E; [reflexivity|lia].
Qed.

Lemma read_varint_shape (data : bytes) (offset : Z) :
  0 <= offset ->
  read_varint data offset = Ok (None, offset)
  \/ exists v off',
      read_varint data offset = Ok (Some v, off')
      /\ offset < off' <= len data /\ 0 <= v.
Proof.
  intros Ho. unfold read_varint.
  destruct (read_varint_loop_shape data offset 8 0 0)
    as [Hnone|(v & off' & Hsome & Hoff & Hv)]; try lia.
  - left. assumption.
  - right. exists v, off'. split; [assumption|lia].
Qed.

(** Whatever was read before, a run of continuation bytes that reaches the
    end of the buffer makes the loop give up. *)
Lemma read_varint_loop_truncated (data : bytes) (offset k : Z) :
  k <= 8 -> len data <= offset + k ->
  (forall i, 0 <= i < k ->
     exists b, getitem data (offset + i) = Ok b /\ Z.land (byte_val b) 0x80 <> 0) ->
  forall n i value,
    0 <= i <= k -> i + Z.of_nat n = 9 ->
    read_varint_loop n data offset i value = Ok (None, offset).
Proof.
  intros Hk Hend Hcont. induction n as [|n IH]; intros i value Hi Hn.
  - lia.
  - cbn [read_varint_loop].
    destruct (offset + i >=? len data) eqn:E; [reflexivity|].
    destruct (Hcont i) as (b & Hget & Hhigh); [lia|].
    rewrite Hget. cbn [bind].
    destruct (Z.eqb_spec i 8) as [|_]; [lia|].
    destruct (Z.eqb_spec (Z.land (byte_val b) 0x80) 0) as [|_]; [contradiction|].
    apply IH; lia.
Qed.

(** C7: if the buffer ends after [k <= 8] bytes that all carry the
    continuation flag (so before a byte with the high bit clear among the
    first eight, and before a ninth byte), [read_varint] returns [None] for
    the value and the offset it was given. *)
Theorem read_varint_truncated (data : bytes) (offset k : Z) :
  0 <= k <= 8 -> len data <= offset + k ->
  (forall i, 0 <= i < k ->
     exists b, getitem data (offset + i) = Ok b /\ Z.land (byte_val b) 0x80 <> 0) ->
  read_varint data offset = Ok (None, offset).
Proof.
  intros Hk Hend Hcont. unfold read_varint.
  apply (read_varint_loop_truncated data offset k); try assumption; lia.
Qed.

Lemma read_varint_truncated_witness :
  read_varint (bytes_of [0x81; 0x82]) 0 = Ok (None, 0).
Proof.
  apply (read_varint_truncated (bytes_of [0x81; 0x82]) 0 2).
  - lia.
  - vm_compute. discriminate.
  - intros i Hi. assert (Hcases : i = 0 \/ i = 1) by lia.
    destruct Hcases as [-> | ->].
    + exists x81. split; [reflexivity | vm_compute; discriminate].
    + exists x82. split; [reflexivity | vm_compute; discriminate].
Defined.

(** *** Reading what the encoder wrote *)

Lemma bytes_of_app (l1 l2 : list Z) : bytes_of (l1 ++ l2) = bytes_of l1 ++ bytes_of l2.
Proof. apply map_app. Qed.

Lemma continued_groups_length (k : nat) : forall x, length (continued_groups k x) = k.
Proof.
  induction k as [|k IH]; intros x; simpl; [reflexivity|].
  rewrite length_app, IH. simpl. lia.
Qed.

Lemma len_continued (k : nat) (x : Z) : len (bytes_of (continued_groups k x)) = Z.of_nat k.
Proof. unfold len, bytes_of. rewrite length_map, continued_groups_length. reflexivity. Qed.

(** The loop walks through [k] continuation bytes and shifts their data
    bits into the accumulator. *)
Lemma read_varint_loop_continued (pre : bytes) (k : nat) :
  forall (x : Z) (rest : bytes) (n : nat) (value : Z),
    (k <= 8)%nat -> 0 <= x < 128 ^ Z.of_nat k ->
    read_varint_loop (k + n) (pre ++ bytes_of (continued_groups k x) ++ rest)
                     (len pre) 0 value
    = read_varint_loop n (pre ++ bytes_of (continued_groups k x) ++ rest)
                       (len pre) (Z.of_nat k) (value * 128 ^ Z.of_nat k + x).
Proof.
  induction k as [|k IH]; intros x rest n value Hk Hx.
  - simpl in *. f_equal. lia.
  - cbn [continued_groups]. rewrite bytes_of_app, <- app_assoc.
    cbn [bytes_of map app].
    replace (S k + n)%nat with (k + S n)%nat by lia.
    assert (Hq : 0 <= x / 128 < 128 ^ Z.of_nat k).
    { rewrite Nat2Z.inj_succ, Z.pow_succ_r in Hx by lia.
      split; [apply Z.div_pos; lia | apply Z.div_lt_upper_bound; lia]. }
    rewrite IH by (try assumption; lia).
    pose proof (Z.mod_pos_bound x 128 ltac:(lia)) as Hm.
    assert (Hbyte : byte_val (byte_of_Z (128 + x mod 128)) = 128 + x mod 128)
      by (apply byte_val_of_Z; lia).
    rewrite (read_varint_loop_step _ _ _ _ _ (byte_of_Z (128 + x mod 128))).
    + rewrite Hbyte.
      destruct (Z.ltb_spec (128 + x mod 128) 128) as [|_]; [lia|].
      f_equal; [lia|].
      rewrite Nat2Z.inj_succ, Z.pow_succ_r by lia.
      pose proof (Z.div_mod x 128 ltac:(lia)). lia.
    + rewrite !len_app, len_continued. unfold len at 3. simpl length. lia.
    + rewrite <- len_continued with (x := x / 128), <- len_app, app_assoc.
      apply getitem_middle.
    + lia.
Qed.

(** A value of at most [7 * (k + 1)] bits, written on [k + 1] bytes. *)
Lemma read_varint_short (pre rest : bytes) (v : Z) (k : nat) :
  (k <= 7)%nat -> 0 <= v < 128 ^ Z.of_nat (S k) ->
  read_varint (pre ++ bytes_of (continued_groups k (v / 128) ++ [v mod 128]) ++ rest)
              (len pre)
  = Ok (Some v, len pre + Z.of_nat k + 1).
Proof.
  intros Hk Hv. unfold read_varint.
  rewrite bytes_of_app, <- app_assoc. cbn [bytes_of map app].
  replace 9%nat with (k + S (8 - k))%nat by lia.
  assert (Hq : 0 <= v / 128 < 128 ^ Z.of_nat k).
  { rewrite Nat2Z.inj_succ, Z.pow_succ_r in Hv by lia.
    split; [apply Z.div_pos; lia | apply Z.div_lt_upper_bound; lia]. }
  rewrite read_varint_loop_continued by (try assumption; lia).
  pose proof (Z.mod_pos_bound v 128 ltac:(lia)) as Hm.
  assert (Hbyte : byte_val (byte_of_Z (v mod 128)) = v mod 128)
    by (apply byte_val_of_Z; lia).
  rewrite (read_varint_loop_step _ _ _ _ _ (byte_of_Z (v mod 128))).
  - rewrite Hbyte.
    destruct (Z.ltb_spec (v mod 128) 128) as [_|]; [|lia].
    pose proof (Z.div_mod v 128 ltac:(lia)).
    repeat f_equal; lia.
  - rewrite !len_app, len_continued. unfold len at 3. simpl length. lia.
  - rewrite <- len_continued with (x := v / 128), <- len_app, app_assoc.
    apply getitem_middle.
  - lia.
Qed.

(** A value of more than 56 bits, written on nine bytes. *)
Lemma read_varint_long (pre rest : bytes) (v : Z) :
  0 <= v < 2 ^ 64 ->
  read_varint (pre ++ bytes_of (continued_groups 8 (v / 256) ++ [v mod 256]) ++ rest)
              (len pre)
  = Ok (Some v, len pre + 9).
Proof.
  intros Hv. unfold read_varint.
  rewrite bytes_of_app, <- app_assoc. cbn [bytes_of map app].
  change 9%nat with (8 + 1)%nat.
  assert (Hq : 0 <= v / 256 < 128 ^ Z.of_nat 8).
  { change (128 ^ Z.of_nat 8) with (2 ^ 56). change (2 ^ 64) with (2 ^ 56 * 256) in Hv.
    split; [apply Z.div_pos; lia | apply Z.div_lt_upper_bound; lia]. }
  rewrite read_varint_loop_continued by (try assumption; lia).
  pose proof (Z.mod_pos_bound v 256 ltac:(lia)) as Hm.
  assert (Hbyte : byte_val (byte_of_Z (v mod 256)) = v mod 256)
    by (apply byte_val_of_Z; lia).
  change (Z.of_nat 8) with 8.
  rewrite (read_varint_loop_ninth _ _ _ _ (byte_of_Z (v mod 256))).
  - rewrite Hbyte. pose proof (Z.div_mod v 256 ltac:(lia)).
    change (128 ^ 8) with (2 ^ 56).
    repeat f_equal; lia.
  - rewrite !len_app, len_continued. unfold len at 3. simpl length. lia.
  - replace (len pre + 8) with (len (pre ++ bytes_of (continued_groups 8 (v / 256))))
      by (rewrite len_app, len_continued; reflexivity).
    rewrite app_assoc. apply getitem_middle.
Qed.

Lemma varint_width_range (v : Z) : (1 <= varint_width v <= 9)%nat.
Proof. width_cases v. Qed.

Lemma encode_varint_length (v : Z) : length (encode_varint v) = varint_width v.
Proof.
  unfold encode_varint, bytes_of.
  destruct (Z.ltb_spec v (2 ^ 56));
    rewrite length_map, length_app, continued_groups_length; simpl length.
  - pose proof (varint_width_range v). lia.
  - width_cases v.
Qed.

(** Wherever the encoding lies in a buffer, [read_varint] gets the value
    back and stops right after it. *)
Lemma read_varint_encode (pre rest : bytes) (v : Z) :
  0 <= v < 2 ^ 64 ->
  read_varint (pre ++ encode_varint v ++ rest) (len pre)
  = Ok (Some v, len pre + Z.of_nat (varint_width v)).
Proof.
  intros Hv. unfold encode_varint.
  destruct (Z.ltb_spec v (2 ^ 56)) as [Hs|Hl].
  - rewrite read_varint_short.
    + pose proof (varint_width_range v). do 2 f_equal. lia.
    + width_cases v.
    + width_cases v.
  - rewrite read_varint_long by assumption.
    do 3 f_equal. width_cases v.
Qed.

(** C5: for every [v] in [0, 2^64), reading the encoding of [v] from
    offset 0 gives back [v]; the width consumed is the length of the
    encoding, which is the width the 7-bit rule assigns to [v], between 1
    and 9 bytes. *)
Theorem varint_round_trip (v : Z) :
  0 <= v < 2 ^ 64 ->
  read_varint (encode_varint v) 0 = Ok (Some v, len (encode_varint v))
  /\ length (encode_varint v) = varint_width v
  /\ (1 <= varint_width v <= 9)%nat.
Proof.
  intros Hv. split; [|split].
  - pose proof (read_varint_encode [] [] v Hv) as H.
    rewrite app_nil_r in H. cbn [app] in H.
    change (len (@nil byte)) with 0 in H. rewrite H.
    unfold len. rewrite encode_varint_length. reflexivity.
  - apply encode_varint_length.
  - apply varint_width_range.
Qed.

Lemma varint_round_trip_witness :
  read_varint (encode_varint 300) 0 = Ok (Some 300, len (encode_varint 300))
  /\ length (encode_varint 300) = varint_width 300
  /\ (1 <= varint_width 300 <= 9)%nat.
Proof. apply (varint_round_trip 300). lia. Defined.

(** ** Properties of decode_serial_type *)

Lemma unpack_signed_slice (data : bytes) (offset w : Z) :
  0 <= offset -> 0 <= w -> offset + w <= len data ->
  exists v, unpack_signed w (slice data offset (offset + w)) = Ok v.
Proof.
  intros Ho Hw Hlen. unfold unpack_signed.
  rewrite slice_length by lia. replace (offset + w - offset) with w by lia.
  rewrite Z.eqb_refl. eauto.
Qed.

Lemma unpack_unsigned_slice (data : bytes) (offset w : Z) :
  0 <= offset -> 0 <= w -> offset + w <= len data ->
  unpack_unsigned w (slice data offset (offset + w))
  = Ok (be_uint (slice data offset (offset + w))).
Proof.
  intros Ho Hw Hlen. unfold unpack_unsigned.
  rewrite slice_length by lia. replace (offset + w - offset) with w by lia.
  rewrite Z.eqb_refl. reflexivity.
Qed.

Lemma slice_three (data : bytes) (offset : Z) :
  0 <= offset -> offset + 3 <= len data ->
  exists b0 b1 b2, slice data offset (offset + 3) = [b0; b1; b2].
Proof.
  intros Ho Hlen.
  pose proof (slice_length data offset (offset + 3) Ho ltac:(lia) Hlen) as H.
  destruct (slice data offset (offset + 3)) as [|b0 [|b1 [|b2 [|b3 l]]]];
    unfold len in H; simpl length in H; try lia.
  eauto.
Qed.

(** At a position inside or after the buffer nothing is raised, the offset
    never moves back, and it stays put when no value comes out. *)
Lemma decode_serial_type_shape (st : Z) (data : bytes) (offset : Z) :
  0 <= offset ->
  exists v off',
    decode_serial_type st data offset = Ok (v, off')
    /\ offset <= off' /\ (v = None -> off' = offset).
Proof.
  intros Ho. unfold decode_serial_type.
  repeat (branch; [ try shape_done | ]); try shape_done.
  - destruct (unpack_signed_slice data offset 1) as [v Hv]; try lia.
    rewrite Hv. cbn [bind]. shape_done.
  - destruct (unpack_signed_slice data offset 2) as [v Hv]; try lia.
    rewrite Hv. cbn [bind]. shape_done.
  - destruct (slice_three data offset) as (b0 & b1 & b2 & Hs); try lia.
    rewrite Hs.
    change (getitem [b0; b1; b2] 0) with (Ok b0).
    change (getitem [b0; b1; b2] 1) with (Ok b1).
    change (getitem [b0; b1; b2] 2) with (Ok b2).
    cbn [bind]. shape_done.
  - destruct (unpack_signed_slice data offset 4) as [v Hv]; try lia.
    rewrite Hv. cbn [bind]. shape_done.
  - destruct (unpack_signed_slice data offset 8) as [v Hv]; try lia.
    rewrite Hv. cbn [bind]. shape_done.
  - rewrite unpack_unsigned_slice by lia. cbn [bind]. shape_done.
  - assert (0 <= (st - 12) / 2) by (apply Z.div_pos; lia). shape_done.
  - assert (0 <= (st - 13) / 2) by (apply Z.div_pos; lia). shape_done.
Qed.

(** Whenever no value comes out, the given offset comes back, on any
    buffer and at any offset. *)
Lemma decode_none_offset (st : Z) (data : bytes) (offset off' : Z) :
  decode_serial_type st data offset = Ok (None, off') -> off' = offset.
Proof.
  unfold decode_serial_type.
  repeat (branch; [ try congruence | ]); try congruence.
  all: repeat match goal with
         | |- context [bind ?m _] => destruct m; cbn [bind]
         end; congruence.
Qed.

(** C8: for the fixed-width serial types 1 to 7, when the offset plus the
    width of the type goes past the end of the buffer, the decoder returns
    no value and the offset it was given. *)
Theorem decode_fixed_width_short (st : Z) (data : bytes) (offset : Z) :
  1 <= st <= 7 -> offset + serial_type_width st > len data ->
  decode_serial_type st data offset = Ok (None, offset).
Proof.
  intros Hst Hw.
  assert (Hcases : st = 1 \/ st = 2 \/ st = 3 \/ st = 4 \/ st = 5 \/ st = 6 \/ st = 7)
    by lia.
  unfold decode_serial_type.
  repeat destruct Hcases as [-> | Hcases]; try subst st;
    cbn [serial_type_width Z.eqb Pos.eqb] in *;
    match goal with
    | |- context [?a >? ?b] => destruct (Z.gtb_spec a b); [reflexivity | lia]
    end.
Qed.

Lemma decode_fixed_width_short_witness :
  decode_serial_type 6 (bytes_of [1; 2; 3]) 1 = Ok (None, 1).
Proof.
  apply (decode_fixed_width_short 6 (bytes_of [1; 2; 3]) 1).
  - lia.
  - vm_compute. reflexivity.
Defined.

(** *** Integers of three and six bytes *)

Lemma be_fold_lor (bs : bytes) :
  forall acc,
    fold_left (fun v b => Z.lor (Z.shiftl v 8) (byte_val b)) bs acc
    = fold_left (fun acc b => acc * 256 + byte_val b) bs acc.
Proof.
  induction bs as [|b bs IH]; intros acc; cbn [fold_left]; [reflexivity|].
  rewrite lor_shiftl_add by (try lia; apply byte_val_range).
  change (2 ^ 8) with 256. apply IH.
Qed.

Lemma be_three (b0 b1 b2 : byte) :
  Z.lor (Z.lor (Z.shiftl (byte_val b0) 16) (Z.shiftl (byte_val b1) 8)) (byte_val b2)
  = be_uint [b0; b1; b2].
Proof.
  pose proof (byte_val_range b0). pose proof (byte_val_range b1).
  pose proof (byte_val_range b2).
  rewrite (Z.shiftl_mul_pow2 (byte_val b1) 8) by lia.
  rewrite (lor_shiftl_add (byte_val b0) (byte_val b1 * 2 ^ 8) 16) by lia.
  replace (byte_val b0 * 2 ^ 16 + byte_val b1 * 2 ^ 8)
    with (Z.shiftl (byte_val b0 * 256 + byte_val b1) 8)
    by (rewrite Z.shiftl_mul_pow2; lia).
  rewrite lor_shiftl_add by lia.
  unfold be_uint. cbn [fold_left]. lia.
Qed.

Lemma sign_test (v bits : Z) :
  1 <= bits ->
  (if Z.land v (2 ^ (bits - 1)) =? 0 then v else v - 2 ^ bits) = sign_extend bits v.
Proof.
  intros Hb. unfold sign_extend. rewrite land_pow2_testbit by lia.
  destruct (Z.testbit v (bits - 1)); reflexivity.
Qed.

(** C9: with enough bytes at a position of the buffer, serial types 3 and
    5 decode to the two's-complement reading of the big-endian field of 3,
    respectively 6, bytes: the big-endian value minus 2^24 (2^48) when the
    top bit of the field is set, the big-endian value itself otherwise; the
    offset moves past the field. *)
Theorem decode_int24_int48 (data : bytes) (offset : Z) :
  0 <= offset ->
  (offset + 3 <= len data ->
   decode_serial_type 3 data offset =
     Ok (Some (VInt (sign_extend 24 (be_uint (slice data offset (offset + 3))))),
         offset + 3))
  /\ (offset + 6 <= len data ->
      decode_serial_type 5 data offset =
        Ok (Some (VInt (sign_extend 48 (be_uint (slice data offset (offset + 6))))),
            offset + 6)).
Proof.
  intros Ho. split; intros Hlen; unfold decode_serial_type; cbn [Z.eqb Pos.eqb].
  - destruct (Z.gtb_spec (offset + 3) (len data)) as [|_]; [lia|].
    destruct (slice_three data offset) as (b0 & b1 & b2 & Hs); try lia.
    rewrite Hs.
    change (getitem [b0; b1; b2] 0) with (Ok b0).
    change (getitem [b0; b1; b2] 1) with (Ok b1).
    change (getitem [b0; b1; b2] 2) with (Ok b2).
    cbn [bind]. rewrite be_three.
    change 8388608 with (2 ^ (24 - 1)). change 16777216 with (2 ^ 24).
    rewrite sign_test by lia. reflexivity.
  - destruct (Z.gtb_spec (offset + 6) (len data)) as [|_]; [lia|].
    rewrite be_fold_lor. fold (be_uint (slice data offset (offset + 6))).
    change 140737488355328 with (2 ^ (48 - 1)).
    change 281474976710656 with (2 ^ 48).
    rewrite sign_test by lia. reflexivity.
Qed.

Lemma decode_int24_int48_witness :
  decode_serial_type 3 (bytes_of [255; 255; 254; 0; 0; 1]) 0 = Ok (Some (VInt (-2)), 3)
  /\ decode_serial_type 5 (bytes_of [255; 255; 254; 0; 0; 1]) 0
     = Ok (Some (VInt (-33554431)), 6).
Proof.
  destruct (decode_int24_int48 (bytes_of [255; 255; 254; 0; 0; 1]) 0) as [H3 H6].
  - lia.
  - split.
    + rewrite H3 by (vm_compute; discriminate). reflexivity.
    + rewrite H6 by (vm_compute; discriminate). reflexivity.
Defined.

(** The signed reading lies in the two's-complement range of the field and
    agrees with the field modulo [2^bits]. *)
Lemma sign_extend_range (bits u : Z) :
  1 <= bits -> 0 <= u < 2 ^ bits ->
  - 2 ^ (bits - 1) <= sign_extend bits u < 2 ^ (bits - 1)
  /\ sign_extend bits u mod 2 ^ bits = u.
Proof.
  intros Hb Hu. unfold sign_extend.
  replace bits with ((bits - 1) + 1) in Hu at 1 by lia.
  rewrite (testbit_top u (bits - 1)) by lia.
  assert (Hp : 2 ^ bits = 2 * 2 ^ (bits - 1)).
  { replace bits with ((bits - 1) + 1) at 1 by lia.
    rewrite Z.pow_add_r by lia. change (2 ^ 1) with 2. lia. }
  replace ((bits - 1) + 1) with bits in Hu by lia.
  destruct (Z.leb_spec (2 ^ (bits - 1)) u) as [Hle|Hlt].
  - split; [lia|]. symmetry. apply Z.mod_unique with (-1); lia.
  - split; [lia|]. apply Z.mod_small. lia.
Qed.

(** *** NULL and failure *)

(** C10: serial type 0 gives no value and the offset it was given, and so
    does every decode that yields no value, whatever the serial type: the
    two results are equal, and a column list built from a failing column
    is the one built from a NULL column in its place. *)
Theorem null_like_failure (st : Z) (data : bytes) (offset off' : Z) :
  decode_serial_type st data offset = Ok (None, off') ->
  decode_serial_type 0 data offset = Ok (None, offset)
  /\ decode_serial_type st data offset = decode_serial_type 0 data offset
  /\ forall rest columns,
      decode_columns data (st :: rest) offset columns
      = decode_columns data (0 :: rest) offset columns.
Proof.
  intros H. pose proof (decode_none_offset _ _ _ _ H) as ->.
  assert (H0 : decode_serial_type 0 data offset = Ok (None, offset)) by reflexivity.
  split; [assumption|]. split; [congruence|].
  intros rest columns. cbn [decode_columns]. rewrite H, H0. reflexivity.
Qed.

Lemma null_like_failure_witness :
  decode_serial_type 4 (bytes_of [1; 2; 3]) 0 = decode_serial_type 0 (bytes_of [1; 2; 3]) 0.
Proof.
  apply (null_like_failure 4 (bytes_of [1; 2; 3]) 0 0). reflexivity.
Defined.

(** ** Properties of parse_cell *)

Lemma read_varint_some (data : bytes) (offset v off' : Z) :
  0 <= offset -> read_varint data offset = Ok (Some v, off') ->
  offset < off' <= len data /\ 0 <= v.
Proof.
  intros Ho H.
  destruct (read_varint_shape data offset Ho) as [Hn|(v' & o & Hs & Hoff & Hv)];
    rewrite H in *; [discriminate|].
  injection Hs as -> ->. split; assumption.
Qed.

Lemma read_varint_none (data : bytes) (offset off' : Z) :
  0 <= offset -> read_varint data offset = Ok (None, off') -> off' = offset.
Proof.
  intros Ho H.
  destruct (read_varint_shape data offset Ho) as [Hn|(v' & o & Hs & _)];
    rewrite H in *; [congruence|discriminate].
Qed.

(** The [while] loop ends within its bound, and collects what
    [header_types] describes. *)
Lemma read_serial_types_run (data : bytes) (header_end : Z) (n : nat) :
  forall current,
    0 <= current -> (Z.to_nat (len data - current) < n)%nat ->
    exists sts,
      header_types data header_end current sts
      /\ forall fuel acc,
          (n <= fuel)%nat ->
          read_serial_types fuel data current header_end acc = Ok (acc ++ sts).
Proof.
  induction n as [|n IH]; intros current Hc Hn; [lia|].
  destruct (Z.ltb_spec current header_end) as [Hlt|Hge].
  - destruct (read_varint_shape data current Hc) as [Hnone|(v & off' & Hs & Hoff & Hv)].
    + exists []. split; [eapply header_break; eassumption|].
      intros [|fuel] acc Hf; [lia|]. cbn [read_serial_types].
      destruct (Z.ltb_spec current header_end); [|lia].
      rewrite Hnone. cbn [bind]. rewrite app_nil_r. reflexivity.
    + destruct (IH off') as (sts & Hsts & Hrun); try lia.
      exists (v :: sts). split; [eapply header_next; eassumption|].
      intros [|fuel] acc Hf; [lia|]. cbn [read_serial_types].
      destruct (Z.ltb_spec current header_end); [|lia].
      rewrite Hs. cbn [bind]. rewrite Hrun by lia.
      rewrite <- app_assoc. reflexivity.
  - exists []. split; [apply header_done; assumption|].
    intros [|fuel] acc Hf; [lia|]. cbn [read_serial_types].
    destruct (Z.ltb_spec current header_end); [lia|].
    rewrite app_nil_r. reflexivity.
Qed.

Lemma read_serial_types_total (data : bytes) (current header_end : Z) :
  0 <= current ->
  exists sts,
    header_types data header_end current sts
    /\ read_serial_types (serial_types_bound data current) data current header_end []
       = Ok sts.
Proof.
  intros Hc.
  destruct (read_serial_types_run data header_end (serial_types_bound data current)
              current Hc) as (sts & Hsts & Hrun).
  - unfold serial_types_bound. lia.
  - exists sts. split; [assumption|]. apply (Hrun _ []). lia.
Qed.

(** One value per serial type, and nothing raised. *)
Lemma decode_columns_total (data : bytes) (sts : list Z) :
  forall body_offset columns,
    0 <= body_offset ->
    exists cols off',
      decode_columns data sts body_offset columns = Ok (columns ++ cols, off')
      /\ length cols = length sts /\ body_offset <= off'.
Proof.
  induction sts as [|st sts IH]; intros body_offset columns Hb.
  - exists [], body_offset. cbn [decode_columns]. rewrite app_nil_r.
    split; [reflexivity|]. split; [reflexivity|lia].
  - destruct (decode_serial_type_shape st data body_offset Hb)
      as (v & off1 & Hd & Hoff & _).
    destruct (IH off1 (columns ++ [v])) as (cols & off' & Hc & Hlen & Hoff'); [lia|].
    exists (v :: cols), off'. cbn [decode_columns]. rewrite Hd. cbn [bind].
    rewrite Hc, <- app_assoc. split; [reflexivity|].
    split; [simpl; lia | lia].
Qed.

Lemma parse_record_total (data : bytes) (row_id header_start header_end : Z) :
  0 <= header_start -> 0 <= header_end ->
  exists sts cols off',
    header_types data header_end header_start sts
    /\ decode_columns data sts header_end [] = Ok (cols, off')
    /\ length cols = length sts
    /\ parse_record data row_id header_start header_end = Ok (Some (Cell row_id cols)).
Proof.
  intros Hs He.
  destruct (read_serial_types_total data header_start header_end Hs)
    as (sts & Hsts & Hrun).
  destruct (decode_columns_total data sts header_end [] He)
    as (cols & off' & Hc & Hlen & _).
  cbn [app] in Hc.
  exists sts, cols, off'. unfold parse_record. rewrite Hrun. cbn [bind].
  rewrite Hc. cbn [bind]. repeat split; assumption.
Qed.

(** C1 (as the code has it): once [payload_size], [row_id] and
    [header_size] are decoded, the end of the record header is the offset
    at which the [header_size] varint starts plus [header_size] (the size
    counts the bytes of its own varint); serial-type varints are read from
    the offset after that varint for as long as the running offset is
    below this end, and the columns are decoded from this end on. *)
Theorem parse_cell_header_end
  (data : bytes) (offset payload_size p1 rid pos header_size header_start : Z) :
  0 <= offset ->
  read_varint data offset = Ok (Some payload_size, p1) ->
  read_varint data p1 = Ok (Some rid, pos) ->
  read_varint data pos = Ok (Some header_size, header_start) ->
  parse_cell data offset = parse_record data rid header_start (pos + header_size)
  /\ exists sts cols off',
      header_types data (pos + header_size) header_start sts
      /\ decode_columns data sts (pos + header_size) [] = Ok (cols, off')
      /\ parse_cell data offset = Ok (Some (Cell rid cols)).
Proof.
  intros Ho H1 H2 H3.
  assert (Heq : parse_cell data offset
                = parse_record data rid header_start (pos + header_size)).
  { unfold parse_cell. rewrite H1. cbn [bind]. rewrite H2. cbn [bind].
    rewrite H3. reflexivity. }
  split; [assumption|].
  destruct (read_varint_some _ _ _ _ Ho H1) as [Hp1 _].
  destruct (read_varint_some data p1 rid pos ltac:(lia) H2) as [Hpos _].
  destruct (read_varint_some data pos header_size header_start ltac:(lia) H3)
    as [Hstart Hsize].
  destruct (parse_record_total data rid header_start (pos + header_size))
    as (sts & cols & off' & Hsts & Hcols & _ & Hrec); try lia.
  exists sts, cols, off'. rewrite Heq. repeat split; assumption.
Qed.

Lemma parse_cell_header_end_witness :
  parse_cell (bytes_of [3; 1; 2; 1; 127]) 0
  = parse_record (bytes_of [3; 1; 2; 1; 127]) 1 3 (2 + 2).
Proof.
  apply (parse_cell_header_end (bytes_of [3; 1; 2; 1; 127]) 0 3 1 1 2 2 3).
  - lia.
  - reflexivity.
  - reflexivity.
  - reflexivity.
Defined.

(** C1 as it is worded fails: the header does not end at the offset after
    the [header_size] varint plus [header_size].  In the cell
    [03 01 02 01 7f] the header is the two bytes [02 01] and the body the
    byte [7f]; counting from after the size varint would take [7f] for a
    second serial type. *)
Lemma header_end_after_varint_counterexample :
  ~ (forall data offset payload_size p1 rid pos header_size header_start,
       0 <= offset ->
       read_varint data offset = Ok (Some payload_size, p1) ->
       read_varint data p1 = Ok (Some rid, pos) ->
       read_varint data pos = Ok (Some header_size, header_start) ->
       parse_cell data offset
       = parse_record data rid header_start (header_start + header_size)).
Proof.
  intros H.
  specialize (H (bytes_of [3; 1; 2; 1; 127]) 0 3 1 1 2 2 3
                ltac:(lia) eq_refl eq_refl eq_refl).
  vm_compute in H. discriminate.
Qed.

(** C2 (as the code has it): when a column yields no value, its slot
    receives [None], the loop goes on with the remaining serial types, and
    the next column is attempted at the same body offset: the offset is
    not advanced. *)
Theorem column_failure_keeps_offset
  (st : Z) (data : bytes) (body_offset off' : Z) (rest : list Z)
  (columns : list (option value)) :
  decode_serial_type st data body_offset = Ok (None, off') ->
  decode_columns data (st :: rest) body_offset columns
  = decode_columns data rest body_offset (columns ++ [None]).
Proof.
  intros H. pose proof (decode_none_offset _ _ _ _ H) as ->.
  cbn [decode_columns]. rewrite H. reflexivity.
Qed.

Lemma column_failure_keeps_offset_witness :
  decode_columns (bytes_of [42]) [6; 1] 0 []
  = decode_columns (bytes_of [42]) [1] 0 ([] ++ [None]).
Proof.
  apply (column_failure_keeps_offset 6 (bytes_of [42]) 0 0 [1] []). reflexivity.
Defined.

(** C2 as it is worded fails: after a column of serial type 6 (eight
    bytes) that cannot be read from a one-byte body, the next column, of
    serial type 1, is read from that very byte and not eight bytes on. *)
Lemma column_failure_advances_counterexample :
  ~ (forall st data body_offset off' rest columns,
       decode_serial_type st data body_offset = Ok (None, off') ->
       decode_columns data (st :: rest) body_offset columns
       = decode_columns data rest (body_offset + serial_type_width st)
                        (columns ++ [None])).
Proof.
  intros H.
  specialize (H 6 (bytes_of [42]) 0 0 [1] [] eq_refl).
  vm_compute in H. discriminate.
Qed.

(** The same in a whole cell: the second column is read where the first
    one failed. *)
Example parse_cell_after_failed_column :
  parse_cell (bytes_of [4; 1; 3; 6; 1; 42]) 0
  = Ok (Some (Cell 1 [None; Some (VInt 42)])).
Proof. reflexivity. Qed.

(** [parse_cell] gives up exactly on a missing [payload_size], [row_id] or
    [header_size]. *)
Lemma parse_cell_cases (data : bytes) (offset : Z) :
  0 <= offset ->
  (parse_cell data offset = Ok None
   /\ varint_missing data (next_offset data offset)
      || varint_missing data (next_offset data (next_offset data offset)) = true)
  \/ (exists rid cols,
        parse_cell data offset = Ok (Some (Cell rid cols))
        /\ read_varint data (next_offset data offset)
           = Ok (Some rid, next_offset data (next_offset data offset))
        /\ varint_missing data (next_offset data offset)
           || varint_missing data (next_offset data (next_offset data offset)) = false).
Proof.
  intros Ho. unfold parse_cell, next_offset, varint_missing.
  destruct (read_varint_shape data offset Ho) as [H1|(ps & p1 & H1 & Hp1 & _)];
    rewrite H1; cbn [bind].
  { left. rewrite H1. split; reflexivity. }
  destruct (read_varint_shape data p1 ltac:(lia)) as [H2|(rid & pos & H2 & Hpos & _)];
    rewrite H2; cbn [bind].
  { left. split; reflexivity. }
  destruct (read_varint_shape data pos ltac:(lia)) as [H3|(hs & hstart & H3 & Hst & Hhs)];
    rewrite H3; cbn [bind].
  { left. split; [reflexivity|]. apply orb_true_r. }
  right.
  destruct (parse_record_total data rid hstart (pos + hs))
    as (sts & cols & off' & _ & _ & _ & Hrec); try lia.
  exists rid, cols. rewrite Hrec. repeat split; reflexivity.
Qed.

(** C6: at any position of any buffer, [parse_cell] returns [None] if and
    only if the [row_id] varint or the [header_size] varint is missing at
    the offset where it is read, that is the offset handed back by the
    varint read before it (a missing [payload_size] hands back the offset
    it was given, where the [row_id] is then missing too); otherwise it
    returns a cell with the [row_id] that was read and a column list,
    whatever happens to the serial types and the columns. *)
Theorem parse_cell_none_iff (data : bytes) (offset : Z) :
  0 <= offset ->
  let row_id_at := next_offset data offset in
  let header_size_at := next_offset data row_id_at in
  let missing := varint_missing data row_id_at || varint_missing data header_size_at in
  (parse_cell data offset = Ok None <-> missing = true)
  /\ (missing = false ->
      exists rid cols,
        parse_cell data offset = Ok (Some (Cell rid cols))
        /\ read_varint data row_id_at = Ok (Some rid, header_size_at)).
Proof.
  intros Ho. cbv zeta.
  destruct (parse_cell_cases data offset Ho)
    as [[Hnone Hm]|(rid & cols & Hsome & Hrid & Hm)]; rewrite Hm.
  - split; [split; intros _; [reflexivity|assumption] | discriminate].
  - split.
    + rewrite Hsome. split; discriminate.
    + intros _. exists rid, cols. split; assumption.
Qed.

Lemma parse_cell_none_iff_witness :
  parse_cell (bytes_of [3; 1; 2; 1; 127]) 0 = Ok None <->
  varint_missing (bytes_of [3; 1; 2; 1; 127]) 1
  || varint_missing (bytes_of [3; 1; 2; 1; 127]) 2 = true.
Proof.
  apply (parse_cell_none_iff (bytes_of [3; 1; 2; 1; 127]) 0). lia.
Defined.

(** ** Properties of analyze_database *)

Lemma be_uint_nonneg (bs : bytes) : 0 <= be_uint bs.
Proof.
  unfold be_uint.
  assert (H : forall acc, 0 <= acc ->
                0 <= fold_left (fun acc b => acc * 256 + byte_val b) bs acc).
  { induction bs as [|b bs IH]; intros acc Hacc; cbn [fold_left]; [assumption|].
    apply IH. pose proof (byte_val_range b). lia. }
  apply H. lia.
Qed.

Lemma unpack_u16_at (data : bytes) (a b : Z) :
  0 <= a -> b = a + 2 -> b <= len data ->
  unpack_unsigned 2 (slice data a b) = Ok (be_uint (slice data a b)).
Proof. intros Ha -> Hb. apply unpack_unsigned_slice; lia. Qed.

Lemma list_pointers_total (data : bytes) (header_offset : Z) (indices : list Z) :
  0 <= header_offset -> Forall (fun i => 0 <= i) indices ->
  exists lines, list_pointers indices data header_offset = Ok lines.
Proof.
  intros Hh Hi. induction Hi as [|i rest Hi0 _ IH]; cbn [list_pointers].
  - eauto.
  - destruct IH as [lines IH].
    destruct (Z.leb_spec (header_offset + 8 + i * 2 + 2) (len data)) as [Hle|Hgt].
    + rewrite unpack_u16_at by lia. cbn [bind]. rewrite IH. cbn [bind]. eauto.
    + eauto.
Qed.

Lemma range_nonneg (n : Z) : Forall (fun i => 0 <= i) (range n).
Proof.
  unfold range. apply Forall_forall. intros i Hi.
  apply in_map_iff in Hi. destruct Hi as (k & <- & _). lia.
Qed.

Lemma parse_cell_total (data : bytes) (offset : Z) :
  0 <= offset -> exists r, parse_cell data offset = Ok r.
Proof.
  intros Ho.
  destruct (parse_cell_cases data offset Ho) as [[H _]|(rid & cols & H & _)]; eauto.
Qed.

(** On a buffer that holds the file header and the first ten bytes of the
    page header after it, the run goes through. *)
Lemma analyze_buffer_total_long (data : bytes) :
  110 <= len data -> exists r, analyze_buffer data = Ok r.
Proof.
  intros Hlen. unfold analyze_buffer.
  assert (Hho : exists present page_size header_offset,
             (if bytes_eqb (slice_to data 6) magic
              then page_size <- unpack_unsigned 2 (slice data 16 18) ;;
                   Ok (true, Some page_size, 100)
              else Ok (false, None, 0)) = Ok (present, page_size, header_offset)
             /\ (header_offset = 0 \/ header_offset = 100)).
  { destruct (bytes_eqb (slice_to data 6) magic).
    - rewrite (unpack_u16_at data 16 18) by lia. cbn [bind].
      eexists _, _, _. split; [reflexivity|]. right. reflexivity.
    - eexists _, _, _. split; [reflexivity|]. left. reflexivity. }
  destruct Hho as (present & page_size & header_offset & -> & Hh). cbn [bind].
  destruct (Z.ltb_spec header_offset (len data)) as [Hlt|]; [|lia].
  destruct (getitem_in_range data header_offset) as (b & -> & _); [lia|].
  cbn [bind].
  cbn [page_type_is].
  destruct (Z.eqb_spec (byte_val b) 0x0d) as [_|_].
  - rewrite (unpack_u16_at data (header_offset + 3) (header_offset + 5)) by lia.
    cbn [bind].
    set (num_cells := be_uint (slice data (header_offset + 3) (header_offset + 5))).
    destruct (list_pointers_total data header_offset (range (Z.min num_cells 20)))
      as [lines ->]; [lia | apply range_nonneg |].
    cbn [bind].
    destruct (num_cells >? 0).
    + rewrite (unpack_u16_at data (header_offset + 8) (header_offset + 8 + 2)) by lia.
      cbn [bind].
      set (first_ptr := be_uint (slice data (header_offset + 8) (header_offset + 8 + 2))).
      destruct (first_ptr <? len data).
      * destruct (parse_cell_total data first_ptr) as [r ->];
          [apply be_uint_nonneg|].
        cbn [bind]. eauto.
      * cbn [bind]. eauto.
    + cbn [bind]. eauto.
  - eauto.
Qed.

(** What the run decodes on the synthetic page. *)
Lemma analyze_leaf_page_total :
  exists r, analyze_buffer leaf_page = Ok r /\ decoded_cells r = [record_one].
Proof.
  destruct (analyze_buffer leaf_page) as [r|e] eqn:E.
  - exists r. split; [reflexivity|].
    assert (H : match analyze_buffer leaf_page with
                | Ok r0 => decoded_cells r0
                | Raise _ => []
                end = [record_one]) by (vm_compute; reflexivity).
    rewrite E in H. assumption.
  - assert (H : match analyze_buffer leaf_page with
                | Ok _ => true
                | Raise _ => false
                end = true) by (vm_compute; reflexivity).
    rewrite E in H. discriminate.
Qed.

(** C3: the run is not safe on every buffer.  A buffer of the single byte
    [0x0d] is taken for a leaf-table page and the unpacking of its cell
    count, from an empty slice, raises [struct.error]; so does the
    unpacking of the page size when the buffer holds the magic bytes and
    nothing more, and the unpacking of the first cell pointer when the
    page header is cut before it. *)
Theorem analyze_short_buffer_raises :
  analyze_buffer (bytes_of [0x0d]) = Raise StructError
  /\ analyze_buffer magic = Raise StructError
  /\ analyze_buffer (bytes_of [0x0d; 0; 0; 0; 1]) = Raise StructError.
Proof. repeat split; reflexivity. Qed.

(** C4 as it is worded fails: on the synthetic page, whose two cells both
    parse to their records, the run decodes one cell and not two. *)
Lemma leaf_page_two_cells_counterexample :
  len leaf_page = 4096
  /\ parse_cell leaf_page 4088 = Ok (Some record_one)
  /\ parse_cell leaf_page 4080 = Ok (Some record_two)
  /\ ~ (exists r, analyze_buffer leaf_page = Ok r
                  /\ decoded_cells r = [record_one; record_two]).
Proof.
  split; [vm_compute; reflexivity|].
  split; [vm_compute; reflexivity|].
  split; [vm_compute; reflexivity|].
  intros (r & Hr & Hcells).
  destruct analyze_leaf_page_total as (r' & Hr' & Hone).
  rewrite Hr in Hr'. injection Hr' as <-.
  rewrite Hone in Hcells. discriminate.
Qed.

(** ** The bound of the [while] loop is never reached

    This holds at every offset, negative ones included: a read that gives
    a value starts before the end of the buffer and ends further on. *)

Lemma read_varint_loop_advance (data : bytes) (offset : Z) (n : nat) :
  forall i value v off',
    0 <= i ->
    read_varint_loop n data offset i value = Ok (Some v, off') -> offset < off'.
Proof.
  induction n as [|n IH]; intros i value v off' Hi H; cbn [read_varint_loop] in H.
  - injection H as _ <-. lia.
  - destruct (offset + i >=? len data); [discriminate|].
    destruct (getitem data (offset + i)) as [b|e]; cbn [bind] in H; [|discriminate].
    destruct (i =? 8); [injection H as _ <-; lia|].
    destruct (Z.land (byte_val b) 128 =? 0); [injection H as _ <-; lia|].
    eapply IH; [|eassumption]. lia.
Qed.

Lemma read_varint_advance (data : bytes) (offset v off' : Z) :
  read_varint data offset = Ok (Some v, off') -> offset < off' /\ offset < len data.
Proof.
  intros H. split.
  - apply (read_varint_loop_advance data offset 9 0 0 v off'); [lia | assumption].
  - unfold read_varint in H. cbn [read_varint_loop] in H.
    destruct (Z.geb_spec (offset + 0) (len data)); [discriminate | lia].
Qed.

Lemma read_varint_loop_raises (data : bytes) (offset : Z) (n : nat) :
  forall i value e,
    read_varint_loop n data offset i value = Raise e -> e = IndexError.
Proof.
  induction n as [|n IH]; intros i value e H; cbn [read_varint_loop] in H.
  - discriminate.
  - destruct (offset + i >=? len data); [discriminate|].
    unfold getitem in H.
    destruct ((if offset + i <? 0 then offset + i + len data else offset + i) <? 0);
      [cbn [bind] in H; congruence|].
    destruct (nth_error data _); cbn [bind] in H; [|congruence].
    destruct (i =? 8); [discriminate|].
    destruct (Z.land (byte_val b) 128 =? 0); [discriminate|].
    eapply IH; eassumption.
Qed.

Lemma read_serial_types_in_bound (data : bytes) (header_end : Z) (fuel : nat) :
  forall current acc,
    (Z.to_nat (len data - current) < fuel)%nat ->
    read_serial_types fuel data current header_end acc <> Raise OutOfFuel.
Proof.
  induction fuel as [|fuel IH]; intros current acc Hf; [lia|].
  cbn [read_serial_types].
  destruct (current <? header_end); [|discriminate].
  destruct (read_varint data current) as [[[v|] off']|e] eqn:E; cbn [bind].
  - destruct (read_varint_advance _ _ _ _ E). apply IH. lia.
  - discriminate.
  - apply read_varint_loop_raises in E. subst e. discriminate.
Qed.

Lemma parse_record_in_bound (data : bytes) (header_start header_end : Z) :
  read_serial_types (serial_types_bound data header_start) data
                    header_start header_end [] <> Raise OutOfFuel.
Proof. apply read_serial_types_in_bound. unfold serial_types_bound. lia. Qed.

(** ** The examples of the specification *)

Example varint_one_byte : read_varint (bytes_of [0x05]) 0 = Ok (Some 5, 1).
Proof. reflexivity. Qed.

Example varint_two_bytes : read_varint (bytes_of [0x81; 0x02]) 0 = Ok (Some 130, 2).
Proof. reflexivity. Qed.

Example varint_nine_bytes :
  read_varint (bytes_of [0xff; 0xff; 0xff; 0xff; 0xff; 0xff; 0xff; 0xff; 0x01]) 0
  = Ok (Some (2 ^ 64 - 255), 9).
Proof. reflexivity. Qed.

Example serial_type_int8 :
  decode_serial_type 1 (bytes_of [0xff]) 0 = Ok (Some (VInt (-1)), 1).
Proof. reflexivity. Qed.

Example serial_type_empty_blob :
  decode_serial_type 12 (bytes_of [0xff]) 0 = Ok (Some (VBytes []), 0).
Proof. reflexivity. Qed.

Example serial_type_empty_text :
  decode_serial_type 13 (bytes_of [0xff]) 0 = Ok (Some (VStr []), 0).
Proof. reflexivity. Qed.

Example text_latin1_fallback :
  decode_serial_type 17 (bytes_of [0x68; 0xe9]) 0 = Ok (Some (VStr [0x68; 0xe9]), 2).
Proof. reflexivity. Qed.

Example text_utf8 :
  decode_serial_type 19 (bytes_of [0x68; 0xc3; 0xa9]) 0 = Ok (Some (VStr [0x68; 0xe9]), 3).
Proof. reflexivity. Qed.

Example page_types :
  map type_name [0x02; 0x05; 0x0a; 0x0d; 0x00]
  = [InteriorIndex; InteriorTable; LeafIndex; LeafTable; Unknown].
Proof. reflexivity. Qed.

(** * Further properties *)

(** ** Slices inside the buffer *)

Lemma slice_inside {A : Type} (s : list A) (a b : Z) :
  0 <= a -> a <= b -> b <= len s ->
  slice s a b = firstn (Z.to_nat (b - a)) (skipn (Z.to_nat a) s).
Proof.
  intros Ha Hab Hb. unfold slice, slice_bound.
  destruct (Z.ltb_spec a 0); [lia|]. destruct (Z.ltb_spec b 0); [lia|].
  rewrite !Z.min_l by lia. reflexivity.
Qed.

Lemma firstn_snoc {A : Type} (l : list A) :
  forall n x, nth_error l n = Some x -> firstn (S n) l = firstn n l ++ [x].
Proof.
  induction l as [|y l IH]; intros [|n] x H; simpl in *; try discriminate.
  - injection H as ->. reflexivity.
  - f_equal. apply IH. assumption.
Qed.

Lemma slice_snoc {A : Type} (s : list A) (a b : Z) (x : A) :
  0 <= a -> a <= b -> b < len s -> nth_error s (Z.to_nat b) = Some x ->
  slice s a (b + 1) = slice s a b ++ [x].
Proof.
  intros Ha Hab Hb Hx.
  rewrite !slice_inside by lia.
  replace (Z.to_nat (b + 1 - a)) with (S (Z.to_nat (b - a))) by lia.
  apply firstn_snoc. rewrite nth_error_skipn.
  replace (Z.to_nat a + Z.to_nat (b - a))%nat with (Z.to_nat b) by lia.
  assumption.
Qed.

Lemma slice_empty {A : Type} (s : list A) (a : Z) :
  0 <= a -> slice s a a = [].
Proof.
  intros Ha. unfold slice. rewrite Z.sub_diag. reflexivity.
Qed.

(** ** The value read by read_varint *)

Lemma groups_value_snoc (bs : bytes) (b : byte) :
  groups_value (bs ++ [b]) = groups_value bs * 128 + byte_val b mod 128.
Proof. unfold groups_value. rewrite fold_left_app. reflexivity. Qed.

Lemma groups_value_range (bs : bytes) : 0 <= groups_value bs < 128 ^ len bs.
Proof.
  induction bs as [|b bs IH] using rev_ind.
  - unfold groups_value, len. simpl. lia.
  - rewrite groups_value_snoc, len_app. unfold len at 2. simpl length.
    rewrite Z.pow_add_r by (try apply len_nonneg; lia). change (128 ^ Z.of_nat 1) with 128.
    pose proof (Z.mod_pos_bound (byte_val b) 128 ltac:(lia)). nia.
Qed.

(** What the loop returns when it returns a value, given what it has
    gone through so far. *)
Lemma read_varint_loop_value (data : bytes) (offset v off' : Z) (n : nat) :
  forall i value,
    0 <= offset -> 0 <= i -> i + Z.of_nat n = 8 -> offset + i <= len data ->
    value = groups_value (slice data offset (offset + i)) ->
    Forall flagged (slice data offset (offset + i)) ->
    read_varint_loop (S n) data offset i value = Ok (Some v, off') ->
    offset + i < off' <= offset + 9 /\ off' <= len data
    /\ ((off' < offset + 9
         /\ Forall flagged (slice data offset (off' - 1))
         /\ (exists b, getitem data (off' - 1) = Ok b /\ byte_val b < 128)
         /\ v = groups_value (slice data offset off'))
        \/ (off' = offset + 9
            /\ Forall flagged (slice data offset (offset + 8))
            /\ exists b, getitem data (offset + 8) = Ok b
                         /\ v = groups_value (slice data offset (offset + 8)) * 256
                                + byte_val b)).
Proof.
  induction n as [|n IH]; intros i value Ho Hi Hn Hlen Hval Hflag H.
  - assert (i = 8) by lia. subst i.
    destruct (Z.lt_ge_cases (offset + 8) (len data)) as [Hlt|Hge].
    + destruct (getitem_in_range data (offset + 8)) as (b & Hget & _); [lia|].
      rewrite (read_varint_loop_ninth _ _ _ _ b) in H by assumption.
      injection H as <- <-.
      split; [lia|]. split; [lia|]. right.
      split; [reflexivity|]. split; [assumption|].
      exists b. split; [assumption|]. rewrite Hval. reflexivity.
    + cbn [read_varint_loop] in H.
      destruct (offset + 8 >=? len data) eqn:E; [discriminate|lia].
  - destruct (Z.lt_ge_cases (offset + i) (len data)) as [Hlt|Hge].
    + destruct (getitem_in_range data (offset + i)) as (b & Hget & Hnth); [lia|].
      rewrite (read_varint_loop_step _ _ _ _ _ b) in H by (try assumption; lia).
      pose proof (byte_val_range b) as Hb.
      assert (Hsnoc : slice data offset (offset + i + 1)
                      = slice data offset (offset + i) ++ [b])
        by (apply slice_snoc; try assumption; lia).
      destruct (Z.ltb_spec (byte_val b) 128) as [Hs|Hl].
      * injection H as <- <-.
        split; [lia|]. split; [lia|]. left.
        replace (offset + i + 1 - 1) with (offset + i) by lia.
        split; [lia|]. split; [assumption|].
        split; [exists b; split; assumption|].
        rewrite Hsnoc, groups_value_snoc, <- Hval, Z.mod_small by lia. reflexivity.
      * assert (Hval' : value * 128 + (byte_val b - 128)
                        = groups_value (slice data offset (offset + (i + 1)))).
        { replace (offset + (i + 1)) with (offset + i + 1) by lia.
          rewrite Hsnoc, groups_value_snoc, <- Hval.
          f_equal. apply Z.mod_unique with 1; lia. }
        assert (Hflag' : Forall flagged (slice data offset (offset + (i + 1)))).
        { replace (offset + (i + 1)) with (offset + i + 1) by lia.
          rewrite Hsnoc. apply Forall_app. split; [assumption|].
          constructor; [exact Hl | constructor]. }
        destruct (IH (i + 1) _ Ho ltac:(lia) ltac:(lia) ltac:(lia) Hval' Hflag' H)
          as (H1 & H2 & H3).
        split; [lia|]. split; assumption.
    + cbn [read_varint_loop] in H.
      destruct (offset + i >=? len data) eqn:E; [discriminate|lia].
Qed.

Lemma read_varint_value (data : bytes) (offset v off' : Z) :
  0 <= offset -> read_varint data offset = Ok (Some v, off') ->
  offset < off' <= offset + 9 /\ off' <= len data
  /\ ((off' < offset + 9
       /\ Forall flagged (slice data offset (off' - 1))
       /\ (exists b, getitem data (off' - 1) = Ok b /\ byte_val b < 128)
       /\ v = groups_value (slice data offset off'))
      \/ (off' = offset + 9
          /\ Forall flagged (slice data offset (offset + 8))
          /\ exists b, getitem data (offset + 8) = Ok b
                       /\ v = groups_value (slice data offset (offset + 8)) * 256
                              + byte_val b)).
Proof.
  intros Ho H. unfold read_varint in H.
  destruct (Z.lt_ge_cases offset (len data)) as [Hlt|Hge].
  - apply (read_varint_loop_value data offset v off' 8 0 0) in H; try lia.
    + destruct H as (H1 & H2 & H3). split; [lia|]. split; assumption.
    + rewrite Z.add_0_r, slice_empty by lia. reflexivity.
    + rewrite Z.add_0_r, slice_empty by lia. constructor.
  - cbn [read_varint_loop] in H.
    destruct (offset + 0 >=? len data) eqn:E; [discriminate|lia].
Qed.

(** X1: a value read at a position of the buffer is a natural number below
    2^64, and the offset handed back lies 1 to 9 bytes further on and
    never past the end of the buffer. *)
Theorem read_varint_in_bounds (data : bytes) (offset v off' : Z) :
  0 <= offset -> read_varint data offset = Ok (Some v, off') ->
  1 <= off' - offset <= 9 /\ off' <= len data /\ 0 <= v < 2 ^ 64.
Proof.
  intros Ho H.
  destruct (read_varint_value data offset v off' Ho H)
    as (Hoff & Hlen & [(Hw & _ & _ & ->)|(Hw & _ & b & _ & ->)]).
  - split; [lia|]. split; [assumption|].
    pose proof (groups_value_range (slice data offset off')) as Hr.
    rewrite slice_length in Hr by lia.
    assert (128 ^ (off' - offset) <= 128 ^ 8) by (apply Z.pow_le_mono_r; lia).
    change (128 ^ 8) with (2 ^ 56) in *. lia.
  - split; [lia|]. split; [assumption|].
    pose proof (groups_value_range (slice data offset (offset + 8))) as Hr.
    rewrite slice_length in Hr by lia.
    replace (offset + 8 - offset) with 8 in Hr by lia.
    pose proof (byte_val_range b).
    change (128 ^ 8) with (2 ^ 56) in Hr. lia.
Qed.

Lemma read_varint_in_bounds_witness :
  1 <= 2 - 0 <= 9 /\ 2 <= len (bytes_of [0x81; 0x02; 0x07]) /\ 0 <= 130 < 2 ^ 64.
Proof.
  apply (read_varint_in_bounds (bytes_of [0x81; 0x02; 0x07]) 0 130 2).
  - lia.
  - reflexivity.
Defined.

(** X2: what a successful read has consumed and what it returns.  Either
    fewer than nine bytes: flagged bytes followed by one byte with the flag
    clear, the value being their 7-bit groups, most significant first; or
    nine bytes: eight flagged bytes whose groups are shifted by eight bits
    and a ninth byte taken whole. *)
Theorem read_varint_meaning (data : bytes) (offset v off' : Z) :
  0 <= offset -> read_varint data offset = Ok (Some v, off') ->
  (off' < offset + 9
   /\ Forall flagged (slice data offset (off' - 1))
   /\ (exists b, getitem data (off' - 1) = Ok b /\ byte_val b < 128)
   /\ v = groups_value (slice data offset off'))
  \/ (off' = offset + 9
      /\ Forall flagged (slice data offset (offset + 8))
      /\ exists b, getitem data (offset + 8) = Ok b
                   /\ v = groups_value (slice data offset (offset + 8)) * 256
                          + byte_val b).
Proof.
  intros Ho H. apply (read_varint_value data offset v off' Ho H).
Qed.

Lemma read_varint_meaning_witness :
  (2 < 0 + 9
   /\ Forall flagged (slice (bytes_of [0x81; 0x02; 0x07]) 0 (2 - 1))
   /\ (exists b, getitem (bytes_of [0x81; 0x02; 0x07]) (2 - 1) = Ok b
                 /\ byte_val b < 128)
   /\ 130 = groups_value (slice (bytes_of [0x81; 0x02; 0x07]) 0 2))
  \/ (2 = 0 + 9
      /\ Forall flagged (slice (bytes_of [0x81; 0x02; 0x07]) 0 (0 + 8))
      /\ exists b, getitem (bytes_of [0x81; 0x02; 0x07]) (0 + 8) = Ok b
                   /\ 130 = groups_value (slice (bytes_of [0x81; 0x02; 0x07]) 0 (0 + 8))
                            * 256 + byte_val b).
Proof.
  apply (read_varint_meaning (bytes_of [0x81; 0x02; 0x07]) 0 130 2).
  - lia.
  - reflexivity.
Defined.

(** The loop gives up only at the end of the buffer, after flagged bytes. *)
Lemma read_varint_loop_none (data : bytes) (offset o : Z) (n : nat) :
  forall i value,
    0 <= offset -> 0 <= i -> i + Z.of_nat n = 8 -> offset + i <= len data ->
    Forall flagged (slice data offset (offset + i)) ->
    read_varint_loop (S n) data offset i value = Ok (None, o) ->
    len data <= offset + 8 /\ Forall flagged (slice data offset (len data)).
Proof.
  induction n as [|n IH]; intros i value Ho Hi Hn Hlen Hflag H.
  - assert (i = 8) by lia. subst i.
    destruct (Z.lt_ge_cases (offset + 8) (len data)) as [Hlt|Hge].
    + destruct (getitem_in_range data (offset + 8)) as (b & Hget & _); [lia|].
      rewrite (read_varint_loop_ninth _ _ _ _ b) in H by assumption. discriminate.
    + assert (len data = offset + 8) as -> by lia. split; [lia | assumption].
  - destruct (Z.lt_ge_cases (offset + i) (len data)) as [Hlt|Hge].
    + destruct (getitem_in_range data (offset + i)) as (b & Hget & Hnth); [lia|].
      rewrite (read_varint_loop_step _ _ _ _ _ b) in H by (try assumption; lia).
      destruct (Z.ltb_spec (byte_val b) 128) as [Hs|Hl]; [discriminate|].
      apply (IH (i + 1) _ Ho ltac:(lia) ltac:(lia) ltac:(lia)) in H; [assumption|].
      replace (offset + (i + 1)) with (offset + i + 1) by lia.
      rewrite (slice_snoc data offset (offset + i) b) by (try assumption; lia).
      apply Forall_app. split; [assumption|]. constructor; [exact Hl | constructor].
    + assert (len data = offset + i) as -> by lia. split; [lia | assumption].
Qed.

(** X3: the converse of C7.  When no value comes out at a position of the
    buffer, the buffer holds fewer than nine bytes from that position on
    and all of them carry the continuation flag; with nine bytes to read,
    or with a byte whose flag is clear, a value always comes out. *)
Theorem read_varint_none_only_truncated (data : bytes) (offset o : Z) :
  0 <= offset -> read_varint data offset = Ok (None, o) ->
  o = offset /\ len data < offset + 9
  /\ Forall flagged (slice data offset (len data)).
Proof.
  intros Ho H. split; [apply (read_varint_none data offset o Ho H)|].
  destruct (Z.lt_ge_cases offset (len data)) as [Hlt|Hge].
  - unfold read_varint in H.
    apply (read_varint_loop_none data offset o 8 0 0) in H; try lia.
    + destruct H. split; [lia | assumption].
    + rewrite Z.add_0_r, slice_empty by lia. constructor.
  - split; [lia|].
    unfold slice, slice_bound.
    destruct (Z.ltb_spec offset 0); [lia|].
    destruct (Z.ltb_spec (len data) 0); [pose proof (len_nonneg data); lia|].
    rewrite !Z.min_r by lia. rewrite Z.sub_diag. constructor.
Qed.

Lemma read_varint_none_only_truncated_witness :
  0 = 0 /\ len (bytes_of [0x81; 0x82]) < 0 + 9
  /\ Forall flagged (slice (bytes_of [0x81; 0x82]) 0 (len (bytes_of [0x81; 0x82]))).
Proof.
  apply (read_varint_none_only_truncated (bytes_of [0x81; 0x82]) 0 0).
  - lia.
  - reflexivity.
Defined.

(** ** read_varint looks at nothing but the bytes it consumes *)

Lemma getitem_app_shift {A : Type} (pre s suf : list A) (k : Z) :
  0 <= k < len s -> getitem (pre ++ s ++ suf) (len pre + k) = getitem s k.
Proof.
  intros Hk. unfold getitem.
  pose proof (len_nonneg pre).
  destruct (Z.ltb_spec (len pre + k) 0); [lia|].
  destruct (Z.ltb_spec k 0); [lia|].
  destruct (Z.ltb_spec (len pre + k) 0); [lia|].
  destruct (Z.ltb_spec k 0); [lia|].
  unfold len in *.
  rewrite nth_error_app2 by lia.
  replace (Z.to_nat (Z.of_nat (length pre) + k) - length pre)%nat
    with (Z.to_nat k) by lia.
  rewrite nth_error_app1 by lia. reflexivity.
Qed.

Lemma read_varint_loop_embedded (pre data suf : bytes) (offset v off' : Z) (n : nat) :
  forall i value,
    0 <= offset -> 0 <= i ->
    read_varint_loop n data offset i value = Ok (Some v, off') ->
    read_varint_loop n (pre ++ data ++ suf) (len pre + offset) i value
    = Ok (Some v, len pre + off').
Proof.
  induction n as [|n IH]; intros i value Ho Hi H; cbn [read_varint_loop] in *.
  - injection H as <- <-. f_equal. f_equal. lia.
  - destruct (Z.geb_spec (offset + i) (len data)) as [|Hlt]; [discriminate|].
    rewrite !len_app.
    pose proof (len_nonneg suf).
    destruct (Z.geb_spec (len pre + offset + i) (len pre + (len data + len suf)));
      [lia|].
    replace (len pre + offset + i) with (len pre + (offset + i)) by lia.
    rewrite getitem_app_shift by lia.
    destruct (getitem data (offset + i)) as [b|e]; cbn [bind] in *; [|discriminate].
    destruct (i =? 8).
    + injection H as <- <-. f_equal. f_equal. lia.
    + destruct (Z.land (byte_val b) 128 =? 0).
      * injection H as <- <-. f_equal. f_equal. lia.
      * apply IH; [assumption | lia | assumption].
Qed.

(** X4: a varint read at a position of a buffer is read just the same when
    the buffer lies inside a longer one: bytes in front shift the offsets,
    bytes behind change nothing. *)
Theorem read_varint_embedded (pre data suf : bytes) (offset v off' : Z) :
  0 <= offset -> read_varint data offset = Ok (Some v, off') ->
  read_varint (pre ++ data ++ suf) (len pre + offset) = Ok (Some v, len pre + off').
Proof.
  intros Ho H. unfold read_varint in *.
  apply read_varint_loop_embedded; [assumption | lia | assumption].
Qed.

Lemma read_varint_embedded_witness :
  read_varint (bytes_of [9; 9] ++ bytes_of [0x81; 0x02] ++ bytes_of [0xff])
              (len (bytes_of [9; 9]) + 0)
  = Ok (Some 130, len (bytes_of [9; 9]) + 2).
Proof.
  apply (read_varint_embedded (bytes_of [9; 9]) (bytes_of [0x81; 0x02])
                              (bytes_of [0xff]) 0 130 2).
  - lia.
  - reflexivity.
Defined.

(** X5: a negative offset is not refused.  Below [-len(data)] the first
    subscript raises [IndexError]; from [-len(data)] on it counts from the
    end of the buffer, so that a last byte with the flag clear is read as
    a value at offset -1. *)
Theorem read_varint_negative_offset (data : bytes) (offset : Z) :
  (offset < - len data -> read_varint data offset = Raise IndexError)
  /\ (forall b, byte_val b < 128 ->
        read_varint (data ++ [b]) (-1) = Ok (Some (byte_val b), 0)).
Proof.
  split.
  - intros Hneg. unfold read_varint. cbn [read_varint_loop].
    pose proof (len_nonneg data).
    destruct (Z.geb_spec (offset + 0) (len data)); [lia|].
    unfold getitem.
    destruct (Z.ltb_spec (offset + 0) 0); [|lia].
    destruct (Z.ltb_spec (offset + 0 + len data) 0); [|lia].
    reflexivity.
  - intros b Hb.
    assert (Hget : getitem (data ++ [b]) (-1 + 0) = Ok b).
    { unfold getitem. rewrite len_app. change (len [b]) with 1.
      pose proof (len_nonneg data).
      destruct (Z.ltb_spec (-1 + 0) 0); [|lia].
      destruct (Z.ltb_spec (-1 + 0 + (len data + 1)) 0); [lia|].
      replace (Z.to_nat (-1 + 0 + (len data + 1))) with (length data)
        by (unfold len; lia).
      rewrite nth_error_app2, Nat.sub_diag by lia. reflexivity. }
    unfold read_varint.
    rewrite (read_varint_loop_step _ _ _ _ _ b); try assumption; try lia.
    + destruct (Z.ltb_spec (byte_val b) 128); [|lia]. reflexivity.
    + rewrite len_app. pose proof (len_nonneg data). unfold len at 2.
      simpl length. lia.
Qed.

Lemma read_varint_negative_offset_witness :
  read_varint (bytes_of [1; 2]) (-3) = Raise IndexError.
Proof.
  apply (read_varint_negative_offset (bytes_of [1; 2]) (-3)).
  vm_compute. reflexivity.
Defined.

(** ** More on decode_serial_type *)

Lemma decode_some_width (st : Z) (data : bytes) (offset off' : Z) (v : value) :
  decode_serial_type st data offset = Ok (Some v, off') ->
  off' = offset + serial_type_width st.
Proof.
  unfold decode_serial_type, serial_type_width.
  repeat (branch; [ try congruence | ]); try congruence.
  all: repeat match goal with
         | |- context [bind ?m _] => destruct m; cbn [bind]
         end; try congruence.
  all: intros H; injection H as _ <-; lia.
Qed.

(** X6: a decode that yields a value moves the offset by exactly the width
    of the serial type: 1, 2, 3, 4, 6, 8 or 8 bytes for types 1 to 7,
    nothing for the constants 8 and 9, the length encoded in the type for
    BLOB and TEXT. *)
Theorem decode_advances_by_width
  (st : Z) (data : bytes) (offset off' : Z) (v : value) :
  decode_serial_type st data offset = Ok (Some v, off') ->
  off' = offset + serial_type_width st.
Proof. apply decode_some_width. Qed.

Lemma decode_advances_by_width_witness : 6 = 0 + serial_type_width 5.
Proof.
  apply (decode_advances_by_width 5 (bytes_of [255; 255; 254; 0; 0; 1]) 0 6
                                  (VInt (-33554431))).
  reflexivity.
Defined.

Lemma width_blob (st : Z) :
  12 <= st -> st mod 2 = 0 -> serial_type_width st = (st - 12) / 2.
Proof.
  intros H1 H2. unfold serial_type_width.
  repeat match goal with
         | |- context [st =? ?b] => destruct (Z.eqb_spec st b); [lia|]
         end.
  destruct (Z.geb_spec st 12); [|lia].
  destruct (Z.eqb_spec (st mod 2) 0); [reflexivity|lia].
Qed.

Lemma width_text (st : Z) :
  13 <= st -> st mod 2 = 1 -> serial_type_width st = (st - 13) / 2.
Proof.
  intros H1 H2. unfold serial_type_width.
  repeat match goal with
         | |- context [st =? ?b] => destruct (Z.eqb_spec st b); [lia|]
         end.
  destruct (Z.geb_spec st 12); [|lia].
  destruct (Z.eqb_spec (st mod 2) 0); [lia|].
  destruct (Z.geb_spec st 13); [|lia].
  destruct (Z.eqb_spec (st mod 2) 1); [reflexivity|lia].
Qed.

Lemma width_nonneg (st : Z) : 0 <= serial_type_width st.
Proof.
  unfold serial_type_width.
  repeat match goal with
         | |- context [st =? ?b] => destruct (Z.eqb_spec st b); [lia|]
         end.
  destruct (Z.geb_spec st 12); cbn [andb].
  - destruct (Z.eqb_spec (st mod 2) 0); [apply Z.div_pos; lia|].
    destruct (Z.geb_spec st 13); cbn [andb]; [|lia].
    destruct (Z.eqb_spec (st mod 2) 1); [apply Z.div_pos; lia|lia].
  - destruct (Z.geb_spec st 13); [lia|]. cbn [andb]. lia.
Qed.

Lemma decode_absent_only (st : Z) (data : bytes) (offset off' : Z) :
  decode_serial_type st data offset = Ok (None, off') ->
  ~ decodable st
  \/ (st <> 8 /\ st <> 9 /\ len data < offset + serial_type_width st).
Proof.
  unfold decode_serial_type, decodable.
  repeat (branch; [ | ]).
  all: repeat match goal with
         | |- context [bind ?m _] => destruct m; cbn [bind]
         end; try discriminate.
  all: bool_hyps; intros _.
  all: try (subst st; right; cbn; lia).
  all: try (left; lia).
  - right. rewrite width_blob by assumption. lia.
  - right. rewrite width_text by assumption. lia.
  - repeat match goal with
           | H : _ \/ _ |- _ => destruct H
           end; bool_hyps;
      left; pose proof (Z.mod_pos_bound st 2 ltac:(lia));
      pose proof (Z.div_mod st 2 ltac:(lia)); lia.
Qed.

Lemma decode_absent_when (st : Z) (data : bytes) (offset : Z) :
  ~ decodable st
  \/ (st <> 8 /\ st <> 9 /\ len data < offset + serial_type_width st) ->
  decode_serial_type st data offset = Ok (None, offset).
Proof.
  unfold decodable. intros H.
  pose proof (Z.mod_pos_bound st 2 ltac:(lia)) as Hmod.
  unfold decode_serial_type.
  repeat (branch; [ | ]); try reflexivity; bool_hyps; exfalso.
  all: try (subst st; cbn in H; lia).
  - rewrite width_blob in H by assumption. lia.
  - rewrite width_text in H by assumption. lia.
Qed.

(** X7: on any buffer and at any offset, no value comes out in exactly
    these cases: the serial type is none of 1 to 9 and below 12 (NULL, the
    reserved codes 10 and 11, a negative code), or it is not one of the
    constants 8 and 9 and its width goes past the end of the buffer.  The
    constants decode even past the end of the buffer, an empty BLOB or
    TEXT does not. *)
Theorem decode_absent_iff (st : Z) (data : bytes) (offset : Z) :
  (exists off', decode_serial_type st data offset = Ok (None, off'))
  <-> (~ decodable st
       \/ (st <> 8 /\ st <> 9 /\ len data < offset + serial_type_width st)).
Proof.
  split.
  - intros [off' H]. apply (decode_absent_only st data offset off' H).
  - intros H. exists offset. apply decode_absent_when. assumption.
Qed.

Lemma decode_absent_iff_witness :
  exists off', decode_serial_type 10 (bytes_of [1]) 0 = Ok (None, off').
Proof.
  apply (proj2 (decode_absent_iff 10 (bytes_of [1]) 0)).
  left. unfold decodable. lia.
Defined.


(** *** The six integer types *)

Lemma be_uint_snoc (bs : bytes) (b : byte) :
  be_uint (bs ++ [b]) = be_uint bs * 256 + byte_val b.
Proof. unfold be_uint. rewrite fold_left_app. reflexivity. Qed.

Lemma be_uint_range (bs : bytes) : 0 <= be_uint bs < 256 ^ len bs.
Proof.
  induction bs as [|b bs IH] using rev_ind.
  - unfold be_uint, len. simpl. lia.
  - rewrite be_uint_snoc, len_app. change (len [b]) with 1.
    rewrite Z.pow_add_r by (try apply len_nonneg; lia). change (256 ^ 1) with 256.
    pose proof (byte_val_range b). nia.
Qed.

Lemma sign_extend_by_compare (bits u : Z) :
  1 <= bits -> 0 <= u < 2 ^ bits ->
  (if u <? 2 ^ (bits - 1) then u else u - 2 ^ bits) = sign_extend bits u.
Proof.
  intros Hb Hu. unfold sign_extend.
  rewrite (testbit_top u (bits - 1)) by (replace (bits - 1 + 1) with bits by lia; lia).
  destruct (Z.ltb_spec u (2 ^ (bits - 1))), (Z.leb_spec (2 ^ (bits - 1)) u);
    try reflexivity; lia.
Qed.

Lemma field_range (data : bytes) (offset w : Z) :
  0 <= offset -> 0 <= w -> offset + w <= len data ->
  0 <= be_uint (slice data offset (offset + w)) < 2 ^ (8 * w).
Proof.
  intros Ho Hw Hlen.
  pose proof (be_uint_range (slice data offset (offset + w))) as H.
  rewrite slice_length in H by lia.
  replace (offset + w - offset) with w in H by lia.
  replace (2 ^ (8 * w)) with (256 ^ w); [assumption|].
  change 256 with (2 ^ 8). rewrite <- Z.pow_mul_r by lia. reflexivity.
Qed.

Lemma unpack_signed_field (data : bytes) (offset w : Z) :
  0 <= offset -> 1 <= w -> offset + w <= len data ->
  unpack_signed w (slice data offset (offset + w))
  = Ok (sign_extend (8 * w) (be_uint (slice data offset (offset + w)))).
Proof.
  intros Ho Hw Hlen. unfold unpack_signed.
  rewrite slice_length by lia. replace (offset + w - offset) with w by lia.
  rewrite Z.eqb_refl.
  rewrite sign_extend_by_compare by (try lia; apply field_range; lia).
  reflexivity.
Qed.

(** X8: with enough bytes at a position of the buffer, each of the serial
    types 1 to 6 decodes to the two's-complement reading of its big-endian
    field, the ones unpacked by [struct] and the two sign-extended by hand
    alike; the value lies in the signed range of the width and the offset
    moves past the field. *)
Theorem decode_integer (st : Z) (data : bytes) (offset : Z) :
  1 <= st <= 6 -> 0 <= offset -> offset + serial_type_width st <= len data ->
  let w := serial_type_width st in
  let z := sign_extend (8 * w) (be_uint (slice data offset (offset + w))) in
  decode_serial_type st data offset = Ok (Some (VInt z), offset + w)
  /\ - 2 ^ (8 * w - 1) <= z < 2 ^ (8 * w - 1).
Proof.
  intros Hst Ho Hlen. cbv zeta.
  pose proof (width_nonneg st) as Hw0.
  assert (Hw1 : 1 <= serial_type_width st).
  { assert (Hc : st = 1 \/ st = 2 \/ st = 3 \/ st = 4 \/ st = 5 \/ st = 6) by lia.
    repeat destruct Hc as [-> | Hc]; try subst st; cbn; lia. }
  split.
  - assert (Hc : st = 1 \/ st = 2 \/ st = 3 \/ st = 4 \/ st = 5 \/ st = 6) by lia.
    unfold decode_serial_type.
    repeat destruct Hc as [-> | Hc]; try subst st;
      cbn [serial_type_width Z.eqb Pos.eqb Z.mul Pos.mul] in *;
      match goal with
      | |- context [?a >? ?b] => destruct (Z.gtb_spec a b) as [|_]; [lia|]
      end.
    + rewrite unpack_signed_field by lia. reflexivity.
    + rewrite unpack_signed_field by lia. reflexivity.
    + destruct (slice_three data offset) as (b0 & b1 & b2 & Hs); try lia.
      rewrite Hs.
      change (getitem [b0; b1; b2] 0) with (Ok b0).
      change (getitem [b0; b1; b2] 1) with (Ok b1).
      change (getitem [b0; b1; b2] 2) with (Ok b2).
      cbn [bind]. rewrite be_three.
      change 8388608 with (2 ^ (24 - 1)). change 16777216 with (2 ^ 24).
      rewrite sign_test by lia. reflexivity.
    + rewrite unpack_signed_field by lia. reflexivity.
    + rewrite be_fold_lor. fold (be_uint (slice data offset (offset + 6))).
      change 140737488355328 with (2 ^ (48 - 1)).
      change 281474976710656 with (2 ^ 48).
      rewrite sign_test by lia. reflexivity.
    + rewrite unpack_signed_field by lia. reflexivity.
  - apply sign_extend_range; [lia|]. apply field_range; lia.
Qed.

Lemma decode_integer_witness :
  decode_serial_type 2 (bytes_of [0xff; 0xfe; 0x01]) 0
  = Ok (Some (VInt (sign_extend (8 * serial_type_width 2)
                      (be_uint (slice (bytes_of [0xff; 0xfe; 0x01]) 0
                                      (0 + serial_type_width 2))))),
        0 + serial_type_width 2).
Proof.
  apply (decode_integer 2 (bytes_of [0xff; 0xfe; 0x01]) 0).
  - lia.
  - lia.
  - vm_compute. discriminate.
Defined.

(** *** BLOB and TEXT *)

Lemma getitem_slice {A : Type} (s : list A) (a b i : Z) :
  0 <= a -> a <= b -> b <= len s -> 0 <= i < b - a ->
  getitem (slice s a b) i = getitem s (a + i).
Proof.
  intros Ha Hab Hb Hi. rewrite slice_inside by lia. unfold getitem.
  destruct (Z.ltb_spec i 0); [lia|]. destruct (Z.ltb_spec (a + i) 0); [lia|].
  destruct (Z.ltb_spec i 0); [lia|]. destruct (Z.ltb_spec (a + i) 0); [lia|].
  rewrite nth_error_firstn, nth_error_skipn.
  destruct (Nat.ltb_spec (Z.to_nat i) (Z.to_nat (b - a))); [|lia].
  replace (Z.to_nat a + Z.to_nat i)%nat with (Z.to_nat (a + i)) by lia.
  reflexivity.
Qed.

(** X9: with enough bytes at a position of the buffer, an even serial type
    [st >= 12] decodes to a BLOB of [(st - 12) / 2] bytes, which are the
    bytes of the buffer from the offset on, in order; the offset moves past
    them. *)
Theorem decode_blob (st : Z) (data : bytes) (offset : Z) :
  12 <= st -> st mod 2 = 0 -> 0 <= offset ->
  offset + (st - 12) / 2 <= len data ->
  exists bs,
    decode_serial_type st data offset = Ok (Some (VBytes bs), offset + (st - 12) / 2)
    /\ len bs = (st - 12) / 2
    /\ forall i, 0 <= i < (st - 12) / 2 -> getitem bs i = getitem data (offset + i).
Proof.
  intros Hst Heven Ho Hlen.
  assert (Hn : 0 <= (st - 12) / 2) by (apply Z.div_pos; lia).
  exists (slice data offset (offset + (st - 12) / 2)).
  split; [|split].
  - unfold decode_serial_type.
    repeat match goal with
           | |- context [st =? ?b] => destruct (Z.eqb_spec st b); [lia|]
           end.
    destruct (Z.geb_spec st 12); [|lia].
    destruct (Z.eqb_spec (st mod 2) 0); [|lia]. cbn [andb].
    destruct (Z.gtb_spec (offset + (st - 12) / 2) (len data)); [lia|].
    reflexivity.
  - rewrite slice_length by lia. lia.
  - intros i Hi. apply getitem_slice; lia.
Qed.

Lemma decode_blob_witness :
  exists bs,
    decode_serial_type 16 (bytes_of [7; 8; 9]) 1 = Ok (Some (VBytes bs), 1 + (16 - 12) / 2)
    /\ len bs = (16 - 12) / 2
    /\ forall i, 0 <= i < (16 - 12) / 2 ->
                 getitem bs i = getitem (bytes_of [7; 8; 9]) (1 + i).
Proof.
  apply (decode_blob 16 (bytes_of [7; 8; 9]) 1).
  - lia.
  - reflexivity.
  - lia.
  - vm_compute. discriminate.
Defined.

(** A valid UTF-8 string has at most as many code points as bytes, and
    each is a code point of Unicode. *)
Lemma utf8_decode_shape (n : nat) :
  forall bs cps,
    (length bs <= n)%nat -> utf8_decode bs = Some cps ->
    (length cps <= length bs)%nat /\ Forall code_point cps.
Proof.
  unfold code_point.
  induction n as [|n IH]; intros bs cps Hn H.
  - destruct bs; [|simpl in Hn; lia]. injection H as <-. split; [simpl; lia|constructor].
  - destruct bs as [|c0 t0]; [injection H as <-; split; [simpl; lia|constructor]|].
    cbn [utf8_decode] in H. cbv zeta in H. simpl length in Hn.
    pose proof (byte_val_range c0) as Hc0.
    destruct (byte_val c0 <? 128) eqn:E0.
    { destruct (utf8_decode t0) as [r|] eqn:Er; [|discriminate].
      injection H as <-. destruct (IH t0 r ltac:(lia) Er) as [Hl Hf].
      split; [simpl; lia|]. constructor; [lia|assumption]. }
    destruct (in_range 194 223 (byte_val c0)) eqn:E1.
    { destruct t0 as [|c1 t1]; [discriminate|].
      destruct (is_cont (byte_val c1)) eqn:E2; [|discriminate].
      destruct (utf8_decode t1) as [r|] eqn:Er; [|discriminate].
      injection H as <-. simpl length in Hn.
      destruct (IH t1 r ltac:(lia) Er) as [Hl Hf].
      split; [simpl; lia|]. constructor; [|assumption]. range_hyps. lia. }
    destruct (in_range 224 239 (byte_val c0)) eqn:E3.
    { destruct t0 as [|c1 [|c2 t2]]; try discriminate.
      destruct (in_range (second_lo (byte_val c0)) (second_hi (byte_val c0))
                         (byte_val c1) && is_cont (byte_val c2)) eqn:E2;
        [|discriminate].
      destruct (utf8_decode t2) as [r|] eqn:Er; [|discriminate].
      injection H as <-. simpl length in Hn.
      destruct (IH t2 r ltac:(lia) Er) as [Hl Hf].
      split; [simpl; lia|]. constructor; [|assumption].
      pose proof (byte_val_range c1). range_hyps; lia. }
    destruct (in_range 240 244 (byte_val c0)) eqn:E4; [|discriminate].
    destruct t0 as [|c1 [|c2 [|c3 t3]]]; try discriminate.
    destruct (in_range (second_lo (byte_val c0)) (second_hi (byte_val c0))
                       (byte_val c1) && is_cont (byte_val c2)
              && is_cont (byte_val c3)) eqn:E2; [|discriminate].
    destruct (utf8_decode t3) as [r|] eqn:Er; [|discriminate].
    injection H as <-. simpl length in Hn.
    destruct (IH t3 r ltac:(lia) Er) as [Hl Hf].
    split; [simpl; lia|]. constructor; [|assumption].
    pose proof (byte_val_range c1). range_hyps; lia.
Qed.

Lemma utf8_decode_ascii (bs : bytes) :
  Forall (fun b => byte_val b < 128) bs -> utf8_decode bs = Some (map byte_val bs).
Proof.
  induction 1 as [|b bs Hb _ IH]; [reflexivity|].
  cbn [utf8_decode]. cbv zeta.
  destruct (Z.ltb_spec (byte_val b) 128); [|lia].
  rewrite IH. reflexivity.
Qed.

Lemma decode_text_shape (bs : bytes) :
  (length (decode_text bs) <= length bs)%nat
  /\ Forall code_point (decode_text bs)
  /\ (Forall (fun b => byte_val b < 128) bs -> decode_text bs = map byte_val bs)
  /\ (utf8_decode bs = None -> decode_text bs = map byte_val bs).
Proof.
  unfold decode_text, latin1_decode.
  split; [|split; [|split]].
  - destruct (utf8_decode bs) as [cps|] eqn:E.
    + apply (utf8_decode_shape (length bs) bs cps); [lia | assumption].
    + rewrite length_map. lia.
  - destruct (utf8_decode bs) as [cps|] eqn:E.
    + apply (utf8_decode_shape (length bs) bs cps); [lia | assumption].
    + apply Forall_forall. intros c Hc. apply in_map_iff in Hc.
      destruct Hc as (b & <- & _). pose proof (byte_val_range b).
      unfold code_point. lia.
  - intros Hascii. rewrite utf8_decode_ascii by assumption. reflexivity.
  - intros ->. reflexivity.
Qed.

(** X10: with enough bytes at a position of the buffer, an odd serial type
    [st >= 13] always decodes to a text, whatever the bytes: at most
    [(st - 13) / 2] code points of Unicode; they are the bytes themselves,
    one code point a byte, when all bytes are ASCII and also when the bytes
    are not valid UTF-8 (the Latin-1 fallback). *)
Theorem decode_text_column (st : Z) (data : bytes) (offset : Z) :
  13 <= st -> st mod 2 = 1 -> 0 <= offset ->
  offset + (st - 13) / 2 <= len data ->
  let field := slice data offset (offset + (st - 13) / 2) in
  exists cps,
    decode_serial_type st data offset = Ok (Some (VStr cps), offset + (st - 13) / 2)
    /\ len cps <= (st - 13) / 2
    /\ Forall code_point cps
    /\ (Forall (fun b => byte_val b < 128) field \/ utf8_decode field = None ->
        cps = map byte_val field).
Proof.
  intros Hst Hodd Ho Hlen. cbv zeta.
  assert (Hn : 0 <= (st - 13) / 2) by (apply Z.div_pos; lia).
  exists (decode_text (slice data offset (offset + (st - 13) / 2))).
  destruct (decode_text_shape (slice data offset (offset + (st - 13) / 2)))
    as (Hl & Hcp & Hascii & Hbad).
  split; [|split; [|split]].
  - unfold decode_serial_type.
    repeat match goal with
           | |- context [st =? ?b] => destruct (Z.eqb_spec st b); [lia|]
           end.
    destruct (Z.geb_spec st 12); [|lia].
    destruct (Z.eqb_spec (st mod 2) 0); [lia|]. cbn [andb].
    destruct (Z.geb_spec st 13); [|lia].
    destruct (Z.eqb_spec (st mod 2) 1); [|lia]. cbn [andb].
    destruct (Z.gtb_spec (offset + (st - 13) / 2) (len data)); [lia|].
    reflexivity.
  - pose proof (slice_length data offset (offset + (st - 13) / 2)
                             Ho ltac:(lia) Hlen) as Hs.
    unfold len in *. lia.
  - assumption.
  - intros [H|H]; [apply Hascii | apply Hbad]; assumption.
Qed.

Lemma decode_text_column_witness :
  exists cps,
    decode_serial_type 17 (bytes_of [0x68; 0xe9]) 0
    = Ok (Some (VStr cps), 0 + (17 - 13) / 2)
    /\ len cps <= (17 - 13) / 2
    /\ Forall code_point cps
    /\ (Forall (fun b => byte_val b < 128)
               (slice (bytes_of [0x68; 0xe9]) 0 (0 + (17 - 13) / 2))
        \/ utf8_decode (slice (bytes_of [0x68; 0xe9]) 0 (0 + (17 - 13) / 2)) = None ->
        cps = map byte_val (slice (bytes_of [0x68; 0xe9]) 0 (0 + (17 - 13) / 2))).
Proof.
  apply (decode_text_column 17 (bytes_of [0x68; 0xe9]) 0).
  - lia.
  - reflexivity.
  - lia.
  - vm_compute. discriminate.
Defined.

(** ** describe_serial_type and decode_serial_type agree *)

Lemma describe_unknown (st : Z) :
  st <> 0 -> ~ decodable st ->
  describe_serial_type st
  = String.append "Unknown (" (String.append (dec st) ")").
Proof.
  unfold decodable. intros H0 Hd. unfold describe_serial_type.
  repeat match goal with
         | |- context [st =? ?b] => destruct (Z.eqb_spec st b); [lia|]
         end.
  destruct (Z.geb_spec st 12); [lia|].
  destruct (Z.geb_spec st 13); [lia|]. reflexivity.
Qed.

Lemma describe_known (st : Z) :
  st = 0 \/ decodable st ->
  describe_serial_type st
  <> String.append "Unknown (" (String.append (dec st) ")").
Proof.
  unfold decodable. intros Hd. unfold describe_serial_type.
  pose proof (Z.mod_pos_bound st 2 ltac:(lia)) as Hmod.
  repeat match goal with
         | |- context [st =? ?b] =>
             destruct (Z.eqb_spec st b); [cbn [String.append]; discriminate|]
         end.
  destruct (Z.geb_spec st 12); [|lia].
  destruct (Z.eqb_spec (st mod 2) 0); cbn [andb];
    [cbn [String.append]; discriminate|].
  destruct (Z.geb_spec st 13); cbn [andb];
    [|pose proof (Z.div_mod st 2 ltac:(lia)); lia].
  destruct (Z.eqb_spec (st mod 2) 1); [cbn [String.append]; discriminate|lia].
Qed.

Lemma decodable_dec (st : Z) : decodable st \/ ~ decodable st.
Proof. unfold decodable. lia. Qed.

Lemma decodable_decodes (st : Z) :
  decodable st ->
  exists v off',
    decode_serial_type st (repeat x00 (Z.to_nat (serial_type_width st))) 0
    = Ok (Some v, off').
Proof.
  intros Hd. pose proof (width_nonneg st) as Hw.
  destruct (decode_serial_type_shape
              st (repeat x00 (Z.to_nat (serial_type_width st))) 0 ltac:(lia))
    as ([v|] & off' & H & _); [eauto|].
  apply decode_absent_only in H. destruct H as [H|(_ & _ & H)]; [contradiction|].
  unfold len in H. rewrite repeat_length in H. lia.
Qed.

(** X11: [describe_serial_type] calls a serial type unknown exactly when
    the type is not NULL and [decode_serial_type] gives no value for it on
    any buffer at any offset. *)
Theorem describe_unknown_iff (st : Z) :
  describe_serial_type st
  = String.append "Unknown (" (String.append (dec st) ")")
  <-> (st <> 0
       /\ forall data offset, decode_serial_type st data offset = Ok (None, offset)).
Proof.
  split.
  - intros H. destruct (Z.eq_dec st 0) as [->|H0].
    + exfalso. revert H. apply describe_known. left. reflexivity.
    + split; [assumption|]. intros data offset.
      apply decode_absent_when. left. intros Hd.
      revert H. apply describe_known. right. assumption.
  - intros [H0 Hnone]. apply describe_unknown; [assumption|].
    intros Hd. destruct (decodable_decodes st Hd) as (v & off' & H).
    rewrite Hnone in H. discriminate.
Qed.

Lemma describe_unknown_iff_witness :
  10 <> 0
  /\ forall data offset, decode_serial_type 10 data offset = Ok (None, offset).
Proof.
  apply (proj1 (describe_unknown_iff 10)). reflexivity.
Defined.

(** X12: for a BLOB or TEXT that decodes, the number of bytes that
    [describe_serial_type] announces is the number of bytes by which
    [decode_serial_type] moves the offset. *)
Theorem describe_length_is_consumed
  (st : Z) (data : bytes) (offset off' : Z) (v : value) :
  12 <= st -> decode_serial_type st data offset = Ok (Some v, off') ->
  describe_serial_type st
  = String.append (if st mod 2 =? 0 then "BLOB (" else "TEXT (")
      (String.append (dec (off' - offset)) " bytes)").
Proof.
  intros Hst H. apply decode_some_width in H. subst off'.
  replace (offset + serial_type_width st - offset) with (serial_type_width st) by lia.
  pose proof (Z.mod_pos_bound st 2 ltac:(lia)) as Hmod.
  pose proof (Z.div_mod st 2 ltac:(lia)) as Hdm.
  unfold describe_serial_type.
  repeat match goal with
         | |- context [st =? ?b] => destruct (Z.eqb_spec st b); [lia|]
         end.
  destruct (Z.geb_spec st 12); [|lia].
  destruct (Z.eqb_spec (st mod 2) 0); cbn [andb].
  - rewrite width_blob by lia. reflexivity.
  - destruct (Z.geb_spec st 13); [|lia].
    destruct (Z.eqb_spec (st mod 2) 1); [|lia]. cbn [andb].
    rewrite width_text by lia. reflexivity.
Qed.

Lemma describe_length_is_consumed_witness :
  describe_serial_type 17
  = String.append (if 17 mod 2 =? 0 then "BLOB (" else "TEXT (")
      (String.append (dec (2 - 0)) " bytes)").
Proof.
  apply (describe_length_is_consumed 17 (bytes_of [0x68; 0xe9]) 0 2
                                     (VStr [0x68; 0xe9])).
  - lia.
  - reflexivity.
Defined.

(** ** hex_dump *)

Lemma firstn_add {A : Type} (n m : nat) :
  forall l : list A, firstn (n + m) l = firstn n l ++ firstn m (skipn n l).
Proof.
  induction n as [|n IH]; intros l; [reflexivity|].
  destruct l as [|x l]; simpl; [rewrite firstn_nil; reflexivity|].
  rewrite IH. reflexivity.
Qed.

Lemma slice_bound_range {A : Type} (s : list A) (k : Z) :
  0 <= k -> slice_bound s k = Z.min k (len s).
Proof. intros Hk. unfold slice_bound. destruct (Z.ltb_spec k 0); [lia|reflexivity]. Qed.

Lemma slice_app {A : Type} (s : list A) (a b c : Z) :
  0 <= a -> a <= b -> b <= c ->
  slice s a b ++ slice s b c = slice s a c.
Proof.
  intros Ha Hab Hbc. unfold slice.
  rewrite !slice_bound_range by lia.
  pose proof (len_nonneg s).
  set (a' := Z.min a (len s)). set (b' := Z.min b (len s)).
  set (c' := Z.min c (len s)).
  replace (Z.to_nat (c' - a')) with (Z.to_nat (b' - a') + Z.to_nat (c' - b'))%nat
    by lia.
  rewrite firstn_add, skipn_skipn.
  replace (Z.to_nat (b' - a') + Z.to_nat a')%nat with (Z.to_nat b') by lia.
  reflexivity.
Qed.

Lemma slice_clamp {A : Type} (s : list A) (a b : Z) :
  0 <= b -> slice s a (Z.min b (len s)) = slice s a b.
Proof.
  intros Hb. unfold slice. pose proof (len_nonneg s).
  rewrite (slice_bound_range s (Z.min b (len s))) by lia.
  rewrite (slice_bound_range s b) by lia.
  rewrite <- Z.min_assoc, Z.min_id. reflexivity.
Qed.

Lemma slice_past_end {A : Type} (s : list A) (a b : Z) :
  0 <= a -> len s <= a -> slice s a b = [].
Proof.
  intros Ha Hlen. unfold slice. pose proof (len_nonneg s).
  rewrite (slice_bound_range s a) by lia.
  unfold slice_bound. destruct (Z.ltb_spec b 0).
  - replace (Z.to_nat (Z.max 0 (b + len s) - Z.min a (len s))) with 0%nat by lia.
    reflexivity.
  - replace (Z.to_nat (Z.min b (len s) - Z.min a (len s))) with 0%nat by lia.
    reflexivity.
Qed.

Lemma hex_dump_rows_concat (data : bytes) (offset : Z) (m : nat) :
  forall j : nat,
    0 <= offset ->
    concat (map snd (hex_dump_rows (map (fun k => 16 * Z.of_nat k) (seq j m))
                                   data offset))
    = slice data (offset + 16 * Z.of_nat j) (offset + 16 * Z.of_nat (j + m)).
Proof.
  induction m as [|m IH]; intros j Ho.
  - rewrite Nat.add_0_r. cbn [seq map hex_dump_rows concat].
    rewrite slice_empty by lia. reflexivity.
  - cbn [seq map hex_dump_rows].
    destruct (Z.geb_spec (offset + 16 * Z.of_nat j) (len data)) as [Hge|Hlt].
    + cbn [map concat]. rewrite slice_past_end by lia. reflexivity.
    + cbn [map concat snd]. rewrite IH by assumption.
      rewrite slice_clamp by lia.
      replace (offset + 16 * Z.of_nat (S j)) with (offset + 16 * Z.of_nat j + 16)
        by lia.
      rewrite slice_app by lia. f_equal. lia.
Qed.

(** X13: the rows of a dump, put end to end, are the bytes of the buffer
    from the offset on, [length] being rounded up to a whole number of
    rows of 16 and the dump ending with the buffer. *)
Theorem hex_dump_covers (data : bytes) (offset length : Z) :
  0 <= offset -> 0 <= length ->
  concat (map snd (hex_dump data offset length))
  = slice data offset (offset + 16 * ((length + 15) / 16)).
Proof.
  intros Ho Hl. unfold hex_dump, range16.
  rewrite hex_dump_rows_concat by assumption.
  assert (0 <= (length + 15) / 16) by (apply Z.div_pos; lia).
  f_equal; lia.
Qed.

Lemma hex_dump_covers_witness :
  concat (map snd (hex_dump (bytes_of [1; 2; 3]) 1 20))
  = slice (bytes_of [1; 2; 3]) 1 (1 + 16 * ((20 + 15) / 16)).
Proof. apply (hex_dump_covers (bytes_of [1; 2; 3]) 1 20); lia. Defined.

Lemma hex_dump_rows_shape (data : bytes) (offset length : Z) (starts : list Z) :
  0 <= offset ->
  Forall (fun i => 0 <= i < length /\ i mod 16 = 0) starts ->
  Forall (fun row =>
            offset <= fst row < Z.min (offset + length) (len data)
            /\ (fst row - offset) mod 16 = 0
            /\ snd row = slice data (fst row) (fst row + 16)
            /\ 1 <= len (snd row) <= 16)
         (hex_dump_rows starts data offset).
Proof.
  intros Ho Hs. induction Hs as [|i rest [Hi Hmod] _ IH]; cbn [hex_dump_rows].
  - constructor.
  - destruct (Z.geb_spec (offset + i) (len data)) as [Hge|Hlt]; [constructor|].
    constructor; [|assumption]. cbn [fst snd].
    split; [lia|]. split; [replace (offset + i - offset) with i by lia; assumption|].
    split; [apply slice_clamp; lia|].
    rewrite slice_length by lia. lia.
Qed.

Lemma range16_shape (length : Z) :
  Forall (fun i => 0 <= i < length /\ i mod 16 = 0) (range16 length).
Proof.
  unfold range16. apply Forall_forall. intros i Hi.
  apply in_map_iff in Hi. destruct Hi as (k & <- & Hk).
  apply in_seq in Hk.
  assert (Hq : Z.of_nat k < (length + 15) / 16) by lia.
  pose proof (Z.div_mod (length + 15) 16 ltac:(lia)).
  pose proof (Z.mod_pos_bound (length + 15) 16 ltac:(lia)).
  split; [lia|].
  rewrite Z.mul_comm. apply Z.mod_mul. lia.
Qed.

Lemma hex_dump_rows_wellformed_aux (data : bytes) (offset length : Z) :
  0 <= offset ->
  Forall (fun row =>
            offset <= fst row < Z.min (offset + length) (len data)
            /\ (fst row - offset) mod 16 = 0
            /\ snd row = slice data (fst row) (fst row + 16)
            /\ 1 <= len (snd row) <= 16)
         (hex_dump data offset length).
Proof.
  intros Ho. unfold hex_dump.
  apply hex_dump_rows_shape; [assumption | apply range16_shape].
Qed.

(** X14: every row of a dump starts inside the requested range and inside
    the buffer, a whole number of 16-byte steps after the offset, and
    holds the next 16 bytes of the buffer, or what is left of it: never an
    empty row, never more than 16 bytes. *)
Theorem hex_dump_rows_wellformed (data : bytes) (offset length : Z) :
  0 <= offset ->
  Forall (fun row =>
            offset <= fst row < Z.min (offset + length) (len data)
            /\ (fst row - offset) mod 16 = 0
            /\ snd row = slice data (fst row) (fst row + 16)
            /\ 1 <= len (snd row) <= 16)
         (hex_dump data offset length).
Proof.
  apply hex_dump_rows_wellformed_aux.
Qed.

Lemma hex_dump_rows_wellformed_witness :
  Forall (fun row =>
            1 <= fst row < Z.min (1 + 20) (len (bytes_of [1; 2; 3]))
            /\ (fst row - 1) mod 16 = 0
            /\ snd row = slice (bytes_of [1; 2; 3]) (fst row) (fst row + 16)
            /\ 1 <= len (snd row) <= 16)
         (hex_dump (bytes_of [1; 2; 3]) 1 20).
Proof. apply (hex_dump_rows_wellformed (bytes_of [1; 2; 3]) 1 20). lia. Defined.

(** *** The lines of the dump *)

Lemma string_length_append (a b : String.string) :
  String.length (String.append a b) = (String.length a + String.length b)%nat.
Proof. induction a as [|c a IH]; simpl; [reflexivity|]. rewrite IH. reflexivity. Qed.

Lemma fill_length (c : Ascii.ascii) (n : nat) : String.length (fill c n) = n.
Proof. induction n as [|n IH]; simpl; [reflexivity|]. rewrite IH. reflexivity. Qed.

Lemma ljust_length (width : nat) (s : String.string) :
  (String.length s <= width)%nat -> String.length (ljust width s) = width.
Proof. intros H. unfold ljust. rewrite string_length_append, fill_length. lia. Qed.

Lemma format_x_byte_length (b : byte) : String.length (format_x 2 (byte_val b)) = 2%nat.
Proof. destruct b; vm_compute; reflexivity. Qed.

Lemma format_x_offset_length (z : Z) :
  0 <= z < 65536 -> String.length (format_x 4 z) = 4%nat.
Proof.
  intros Hz.
  assert (Hall : forallb
                   (fun hi =>
                      forallb
                        (fun lo =>
                           Nat.eqb (String.length
                                      (format_x 4 (256 * Z.of_nat hi + Z.of_nat lo))) 4)
                        (seq 0 256))
                   (seq 0 256) = true) by (vm_compute; reflexivity).
  rewrite forallb_forall in Hall.
  pose proof (Z.div_mod z 256 ltac:(lia)) as Hdm.
  pose proof (Z.mod_pos_bound z 256 ltac:(lia)) as Hm.
  assert (Hq : 0 <= z / 256 < 256)
    by (split; [apply Z.div_pos; lia | apply Z.div_lt_upper_bound; lia]).
  specialize (Hall (Z.to_nat (z / 256)) ltac:(apply in_seq; lia)).
  rewrite forallb_forall in Hall.
  specialize (Hall (Z.to_nat (z mod 256)) ltac:(apply in_seq; lia)).
  rewrite !Z2Nat.id in Hall by lia. rewrite <- Hdm in Hall.
  apply Nat.eqb_eq. assumption.
Qed.

Lemma hex_str_length (chunk : bytes) :
  chunk <> [] -> (String.length (hex_str chunk) + 1 = 3 * length chunk)%nat.
Proof.
  unfold hex_str. induction chunk as [|b rest IH]; intros Hne; [contradiction|].
  destruct rest as [|b' rest'].
  - cbn [map String.concat length]. rewrite format_x_byte_length. reflexivity.
  - change (String.concat " " (map (fun b0 => format_x 2 (byte_val b0)) (b :: b' :: rest')))
      with (String.append (format_x 2 (byte_val b))
              (String.append " "
                 (String.concat " "
                    (map (fun b0 => format_x 2 (byte_val b0)) (b' :: rest'))))).
    rewrite !string_length_append, format_x_byte_length.
    specialize (IH ltac:(discriminate)).
    change (String.length " ") with 1%nat.
    simpl length in *. lia.
Qed.

Lemma ascii_str_length (chunk : bytes) : String.length (ascii_str chunk) = length chunk.
Proof.
  unfold ascii_str. induction chunk as [|b rest IH]; simpl; [reflexivity|].
  rewrite IH. reflexivity.
Qed.

Lemma ascii_char_printable (b : byte) :
  32 <= Z.of_N (Ascii.N_of_ascii (ascii_char b)) < 127.
Proof.
  assert (H : (32 <=? Z.of_N (Ascii.N_of_ascii (ascii_char b)))
              && (Z.of_N (Ascii.N_of_ascii (ascii_char b)) <? 127) = true)
    by (destruct b; vm_compute; reflexivity).
  apply andb_true_iff in H. destruct H as [H1 H2].
  apply Z.leb_le in H1. apply Z.ltb_lt in H2. lia.
Qed.

(** X15: in the text of a dump of a buffer of at most 64 KiB, a row of
    [n] bytes makes a line of [57 + n] characters: two spaces, four
    hexadecimal digits, a colon and a space, the hexadecimal column padded
    to 48 characters, a space, and [n] characters of the ASCII column,
    which therefore starts at the same place on every line and holds
    printable ASCII characters only. *)
Theorem dump_lines_aligned (data : bytes) (offset length : Z) :
  0 <= offset -> len data <= 65536 ->
  Forall (fun row =>
            String.length (ljust 48 (hex_str (snd row))) = 48%nat
            /\ String.length (dump_line row) = (57 + List.length (snd row))%nat
            /\ Forall (fun c => 32 <= Z.of_N (Ascii.N_of_ascii c) < 127)
                      (String.list_ascii_of_string (ascii_str (snd row))))
         (hex_dump data offset length).
Proof.
  intros Ho Hlen.
  pose proof (hex_dump_rows_wellformed_aux data offset length Ho) as Hrows.
  apply Forall_forall. intros row Hin.
  rewrite Forall_forall in Hrows. specialize (Hrows row Hin).
  destruct row as [start chunk]. cbn [fst snd] in *.
  destruct Hrows as (Hfst & _ & _ & Hn).
  assert (Hne : chunk <> []).
  { intros E. subst chunk. unfold len in Hn. simpl in Hn. lia. }
  pose proof (hex_str_length chunk Hne) as Hhex.
  assert (Hpad : String.length (ljust 48 (hex_str chunk)) = 48%nat).
  { apply ljust_length. unfold len in Hn. lia. }
  split; [assumption|]. split.
  - unfold dump_line. cbn [fst snd].
    rewrite !string_length_append, Hpad, ascii_str_length,
      format_x_offset_length by lia.
    reflexivity.
  - unfold ascii_str. rewrite String.list_ascii_of_string_of_list_ascii.
    apply Forall_forall. intros c Hc. apply in_map_iff in Hc.
    destruct Hc as (b & <- & _). apply ascii_char_printable.
Qed.

Lemma dump_lines_aligned_witness :
  Forall (fun row =>
            String.length (ljust 48 (hex_str (snd row))) = 48%nat
            /\ String.length (dump_line row) = (57 + List.length (snd row))%nat
            /\ Forall (fun c => 32 <= Z.of_N (Ascii.N_of_ascii c) < 127)
                      (String.list_ascii_of_string (ascii_str (snd row))))
         (hex_dump (bytes_of [1; 2; 3]) 1 20).
Proof.
  apply (dump_lines_aligned (bytes_of [1; 2; 3]) 1 20).
  - lia.
  - vm_compute. discriminate.
Defined.

(** ** The columns of a cell *)

Lemma header_types_count (data : bytes) (header_end current : Z) (sts : list Z) :
  header_types data header_end current sts -> 0 <= current ->
  len sts <= Z.max 0 (Z.min header_end (len data) - current).
Proof.
  induction 1 as [current Hge|current current' Hlt Hr
                  |current st current' sts Hlt Hr _ IH]; intros Hc.
  - unfold len. simpl. lia.
  - unfold len. simpl. lia.
  - destruct (read_varint_some data current st current' Hc Hr) as [Hoff _].
    specialize (IH ltac:(lia)). unfold len in *. simpl length. lia.
Qed.

(** X16: a parsed cell has at most one column for each byte that lies
    between the end of the [header_size] varint and the end of the header,
    inside the buffer; a header size that does not reach past its own
    varint gives a cell without columns, and a corrupt header size cannot
    give more columns than the buffer has bytes.  The row id is a natural
    number below 2^64. *)
Theorem parse_cell_column_count
  (data : bytes) (offset payload_size p1 rid pos header_size header_start : Z) :
  0 <= offset ->
  read_varint data offset = Ok (Some payload_size, p1) ->
  read_varint data p1 = Ok (Some rid, pos) ->
  read_varint data pos = Ok (Some header_size, header_start) ->
  exists cols,
    parse_cell data offset = Ok (Some (Cell rid cols))
    /\ len cols <= Z.max 0 (Z.min (pos + header_size) (len data) - header_start)
    /\ len cols <= len data - offset - 3
    /\ 0 <= rid < 2 ^ 64.
Proof.
  intros Ho H1 H2 H3.
  destruct (read_varint_some _ _ _ _ Ho H1) as [Hp1 _].
  destruct (read_varint_some data p1 rid pos ltac:(lia) H2) as [Hpos _].
  destruct (read_varint_some data pos header_size header_start ltac:(lia) H3)
    as [Hstart Hsize].
  destruct (read_varint_value data p1 rid pos ltac:(lia) H2) as (_ & _ & Hrid).
  destruct (parse_record_total data rid header_start (pos + header_size))
    as (sts & cols & off' & Hsts & _ & Hlen & Hrec); try lia.
  pose proof (header_types_count _ _ _ _ Hsts ltac:(lia)) as Hcount.
  assert (Hb : 0 <= rid < 2 ^ 64).
  { destruct Hrid as [(Hw & _ & _ & ->)|(Hw & _ & b & _ & ->)].
    - pose proof (groups_value_range (slice data p1 pos)) as Hr.
      rewrite slice_length in Hr by lia.
      assert (128 ^ (pos - p1) <= 128 ^ 8) by (apply Z.pow_le_mono_r; lia).
      change (128 ^ 8) with (2 ^ 56) in *. lia.
    - pose proof (groups_value_range (slice data p1 (p1 + 8))) as Hr.
      rewrite slice_length in Hr by lia.
      replace (p1 + 8 - p1) with 8 in Hr by lia.
      pose proof (byte_val_range b).
      change (128 ^ 8) with (2 ^ 56) in Hr. lia. }
  exists cols. split.
  - unfold parse_cell. rewrite H1. cbn [bind]. rewrite H2. cbn [bind].
    rewrite H3. cbn [bind]. assumption.
  - unfold len in *. rewrite Hlen. split; [lia|]. split; [lia|assumption].
Qed.

Lemma parse_cell_column_count_witness :
  exists cols,
    parse_cell (bytes_of [3; 1; 2; 1; 127]) 0 = Ok (Some (Cell 1 cols))
    /\ len cols <= Z.max 0 (Z.min (2 + 2) (len (bytes_of [3; 1; 2; 1; 127])) - 3)
    /\ len cols <= len (bytes_of [3; 1; 2; 1; 127]) - 0 - 3
    /\ 0 <= 1 < 2 ^ 64.
Proof.
  apply (parse_cell_column_count (bytes_of [3; 1; 2; 1; 127]) 0 3 1 1 2 2 3).
  - lia.
  - reflexivity.
  - reflexivity.
  - reflexivity.
Defined.

(** ** More on analyze_database *)

Lemma unpack_unsigned_raises (w : Z) (bs : bytes) (e : exn) :
  unpack_unsigned w bs = Raise e -> e = StructError.
Proof. unfold unpack_unsigned. destruct (len bs =? w); congruence. Qed.

Lemma unpack_unsigned_ok (w : Z) (bs : bytes) (p : Z) :
  unpack_unsigned w bs = Ok p -> len bs = w /\ p = be_uint bs.
Proof.
  unfold unpack_unsigned. destruct (Z.eqb_spec (len bs) w); [|discriminate].
  intros H. injection H as <-. split; [assumption | reflexivity].
Qed.

Lemma slice_two_inside {A : Type} (s : list A) (a : Z) :
  0 <= a -> len (slice s a (a + 2)) = 2 -> a + 2 <= len s.
Proof.
  intros Ha. unfold slice. rewrite !slice_bound_range by lia.
  unfold len. rewrite length_firstn, length_skipn. lia.
Qed.

Lemma unpack_u16_range (data : bytes) (a p : Z) :
  0 <= a -> unpack_unsigned 2 (slice data a (a + 2)) = Ok p ->
  a + 2 <= len data /\ 0 <= p < 65536.
Proof.
  intros Ha H. apply unpack_unsigned_ok in H. destruct H as [Hl ->].
  pose proof (slice_two_inside data a Ha Hl) as Hin.
  split; [assumption|].
  pose proof (field_range data a 2 Ha ltac:(lia) Hin) as Hr.
  change (2 ^ (8 * 2)) with 65536 in Hr. assumption.
Qed.

(** The header check: offset 0 without the magic, 100 with it. *)
Lemma header_check_cases (data : bytes) :
  (bytes_eqb (slice_to data 6) magic = false)
  \/ (bytes_eqb (slice_to data 6) magic = true).
Proof. destruct (bytes_eqb (slice_to data 6) magic); [right|left]; reflexivity. Qed.

Lemma list_pointers_shape (data : bytes) (header_offset : Z) (indices : list Z) :
  forall lines,
    0 <= header_offset -> Forall (fun i => 0 <= i) indices ->
    list_pointers indices data header_offset = Ok lines ->
    (length lines <= length indices)%nat
    /\ Forall (fun p => In (cell_index p) indices
                        /\ 0 <= cell_ptr p < 65536
                        /\ ptr_valid p = (cell_ptr p <? len data))
              lines.
Proof.
  induction indices as [|i rest IH]; intros lines Hh Hi H; cbn [list_pointers] in H.
  - injection H as <-. split; [simpl; lia | constructor].
  - inversion Hi as [|? ? Hi0 Hrest]; subst.
    destruct (header_offset + 8 + i * 2 + 2 <=? len data).
    + destruct (unpack_unsigned 2 _) as [ptr|e] eqn:Hp; cbn [bind] in H; [|discriminate].
      destruct (list_pointers rest data header_offset) as [ls|e] eqn:Hl;
        cbn [bind] in H; [|discriminate].
      injection H as <-.
      destruct (IH ls Hh Hrest eq_refl) as [Hlen Hall].
      apply unpack_u16_range in Hp; [|lia].
      split; [simpl; lia|].
      constructor.
      * cbn [cell_index cell_ptr ptr_valid].
        split; [left; reflexivity|]. split; [lia | reflexivity].
      * eapply Forall_impl; [|exact Hall]. cbn beta.
        intros p (Hin & Hr & Hv). split; [right; assumption|]. split; assumption.
    + destruct (IH lines Hh Hrest H) as [Hlen Hall].
      split; [simpl; lia|].
      eapply Forall_impl; [|exact Hall]. cbn beta.
      intros p (Hin & Hr & Hv). split; [right; assumption|]. split; assumption.
Qed.

Lemma range_length (n : Z) : length (range n) = Z.to_nat n.
Proof. unfold range. rewrite length_map, length_seq. reflexivity. Qed.

Lemma range_in (n i : Z) : In i (range n) -> 0 <= i < n.
Proof.
  unfold range. intros H. apply in_map_iff in H. destruct H as (k & <- & Hk).
  apply in_seq in Hk. lia.
Qed.

(** What a run that ends has done, step by step. *)
Lemma analyze_buffer_inv (data : bytes) (r : report) :
  analyze_buffer data = Ok r ->
  exists header_offset,
    ((header_offset = 0 /\ header_present r = false /\ page_size r = None
      /\ bytes_eqb (slice_to data 6) magic = false)
     \/ (header_offset = 100 /\ header_present r = true
         /\ bytes_eqb (slice_to data 6) magic = true
         /\ exists ps, page_size r = Some ps
                       /\ unpack_unsigned 2 (slice data 16 18) = Ok ps))
    /\ ((len data <= header_offset /\ page_type r = None)
        \/ (exists b, header_offset < len data
                      /\ getitem data header_offset = Ok b
                      /\ page_type r = Some (byte_val b)))
    /\ page_type_name r = option_map type_name (page_type r)
    /\ ((page_type_is (page_type r) 0x0d = false
         /\ num_cells r = None /\ cell_pointers r = [] /\ first_cell r = None)
        \/ (exists n,
              page_type_is (page_type r) 0x0d = true
              /\ num_cells r = Some n
              /\ unpack_unsigned 2 (slice data (header_offset + 3) (header_offset + 5))
                 = Ok n
              /\ list_pointers (range (Z.min n 20)) data header_offset
                 = Ok (cell_pointers r)
              /\ ((n <= 0 /\ first_cell r = None)
                  \/ (exists first_ptr,
                        0 < n
                        /\ unpack_unsigned 2 (slice data (header_offset + 8)
                                                    (header_offset + 8 + 2))
                           = Ok first_ptr
                        /\ ((len data <= first_ptr /\ first_cell r = None)
                            \/ (exists c, first_ptr < len data
                                          /\ parse_cell data first_ptr = Ok c
                                          /\ first_cell r = Some c)))))).
Proof.
  unfold analyze_buffer. intros H.
  destruct (bytes_eqb (slice_to data 6) magic) eqn:Hm.
  - destruct (unpack_unsigned 2 (slice data 16 18)) as [ps|e] eqn:Hps;
      cbn [bind] in H; [|discriminate].
    exists 100. revert H.
    destruct (Z.ltb_spec 100 (len data)) as [Hlt|Hge].
    + destruct (getitem data 100) as [b|e] eqn:Hb; cbn [bind]; [|discriminate].
      destruct (page_type_is (Some (byte_val b)) 13) eqn:Hleaf.
      * destruct (unpack_unsigned 2 (slice data (100 + 3) (100 + 5))) as [n|e] eqn:Hn;
          cbn [bind]; [|discriminate].
        destruct (list_pointers (range (Z.min n 20)) data 100) as [ls|e] eqn:Hls;
          cbn [bind]; [|discriminate].
        destruct (Z.gtb_spec n 0) as [Hpos|Hnp].
        -- destruct (unpack_unsigned 2 (slice data (100 + 8) (100 + 8 + 2)))
             as [fp|e] eqn:Hfp; cbn [bind]; [|discriminate].
           destruct (Z.ltb_spec fp (len data)) as [Hv|Hnv].
           ++ destruct (parse_cell data fp) as [c|e] eqn:Hc; cbn [bind]; [|discriminate].
              intros H; injection H as <-;
              cbn [header_present page_size page_type page_type_name num_cells
                   cell_pointers first_cell].
              split; [right; split; [reflexivity|split; [reflexivity|split; [reflexivity|exists ps; split; reflexivity]]]|].
              split; [right; exists b; repeat split; assumption|].
              split; [reflexivity|]. right. exists n.
              repeat split; try assumption. right. exists fp.
              repeat split; try assumption. right. exists c.
              repeat split; assumption.
           ++ cbn [bind]. intros H; injection H as <-;
              cbn [header_present page_size page_type page_type_name num_cells
                   cell_pointers first_cell].
              split; [right; split; [reflexivity|split; [reflexivity|split; [reflexivity|exists ps; split; reflexivity]]]|].
              split; [right; exists b; repeat split; assumption|].
              split; [reflexivity|]. right. exists n.
              repeat split; try assumption. right. exists fp.
              repeat split; try assumption. left. split; [lia|reflexivity].
        -- cbn [bind]. intros H; injection H as <-;
              cbn [header_present page_size page_type page_type_name num_cells
                   cell_pointers first_cell].
           split; [right; split; [reflexivity|split; [reflexivity|split; [reflexivity|exists ps; split; reflexivity]]]|].
           split; [right; exists b; repeat split; assumption|].
           split; [reflexivity|]. right. exists n.
           repeat split; try assumption. left. split; [lia|reflexivity].
      * intros H; injection H as <-;
              cbn [header_present page_size page_type page_type_name num_cells
                   cell_pointers first_cell].
        split; [right; split; [reflexivity|split; [reflexivity|split; [reflexivity|exists ps; split; reflexivity]]]|].
        split; [right; exists b; repeat split; assumption|].
        split; [reflexivity|]. left. repeat split; assumption.
    + cbn [bind page_type_is]. intros H; injection H as <-;
              cbn [header_present page_size page_type page_type_name num_cells
                   cell_pointers first_cell].
      split; [right; split; [reflexivity|split; [reflexivity|split; [reflexivity|exists ps; split; reflexivity]]]|].
      split; [left; split; [lia|reflexivity]|].
      split; [reflexivity|]. left. repeat split; reflexivity.
  - cbn [bind] in H. exists 0. revert H.
    destruct (Z.ltb_spec 0 (len data)) as [Hlt|Hge].
    + destruct (getitem data 0) as [b|e] eqn:Hb; cbn [bind]; [|discriminate].
      destruct (page_type_is (Some (byte_val b)) 13) eqn:Hleaf.
      * destruct (unpack_unsigned 2 (slice data (0 + 3) (0 + 5))) as [n|e] eqn:Hn;
          cbn [bind]; [|discriminate].
        destruct (list_pointers (range (Z.min n 20)) data 0) as [ls|e] eqn:Hls;
          cbn [bind]; [|discriminate].
        destruct (Z.gtb_spec n 0) as [Hpos|Hnp].
        -- destruct (unpack_unsigned 2 (slice data (0 + 8) (0 + 8 + 2)))
             as [fp|e] eqn:Hfp; cbn [bind]; [|discriminate].
           destruct (Z.ltb_spec fp (len data)) as [Hv|Hnv].
           ++ destruct (parse_cell data fp) as [c|e] eqn:Hc; cbn [bind]; [|discriminate].
              intros H; injection H as <-;
              cbn [header_present page_size page_type page_type_name num_cells
                   cell_pointers first_cell].
              split; [left; repeat split; assumption|].
              split; [right; exists b; repeat split; assumption|].
              split; [reflexivity|]. right. exists n.
              repeat split; try assumption. right. exists fp.
              repeat split; try assumption. right. exists c.
              repeat split; assumption.
           ++ cbn [bind]. intros H; injection H as <-;
              cbn [header_present page_size page_type page_type_name num_cells
                   cell_pointers first_cell].
              split; [left; repeat split; assumption|].
              split; [right; exists b; repeat split; assumption|].
              split; [reflexivity|]. right. exists n.
              repeat split; try assumption. right. exists fp.
              repeat split; try assumption. left. split; [lia|reflexivity].
        -- cbn [bind]. intros H; injection H as <-;
              cbn [header_present page_size page_type page_type_name num_cells
                   cell_pointers first_cell].
           split; [left; repeat split; assumption|].
           split; [right; exists b; repeat split; assumption|].
           split; [reflexivity|]. right. exists n.
           repeat split; try assumption. left. split; [lia|reflexivity].
      * intros H; injection H as <-;
              cbn [header_present page_size page_type page_type_name num_cells
                   cell_pointers first_cell].
        split; [left; repeat split; assumption|].
        split; [right; exists b; repeat split; assumption|].
        split; [reflexivity|]. left. repeat split; assumption.
    + cbn [bind page_type_is]. intros H; injection H as <-;
              cbn [header_present page_size page_type page_type_name num_cells
                   cell_pointers first_cell].
      split; [left; repeat split; assumption|].
      split; [left; split; [lia|reflexivity]|].
      split; [reflexivity|]. left. repeat split; reflexivity.
Qed.

(** X17: the pointer listing of a run has at most 20 lines and at most as
    many as the declared cell count; each line carries an index below 20,
    a pointer that fits 16 bits, and the verdict "valid" exactly when the
    pointer lies inside the buffer.  The declared count fits 16 bits. *)
Theorem analyze_pointer_listing (data : bytes) (r : report) :
  analyze_buffer data = Ok r ->
  (length (cell_pointers r) <= 20)%nat
  /\ Forall (fun p => 0 <= cell_index p < 20
                      /\ 0 <= cell_ptr p < 65536
                      /\ ptr_valid p = (cell_ptr p <? len data))
            (cell_pointers r)
  /\ forall n, num_cells r = Some n ->
               0 <= n < 65536 /\ len (cell_pointers r) <= n.
Proof.
  intros H. apply analyze_buffer_inv in H.
  destruct H as (ho & Hho & _ & _ & [(_ & Hn & Hp & _)|(n & _ & Hn & Hu & Hl & _)]).
  - rewrite Hp, Hn. split; [simpl; lia|]. split; [constructor|]. discriminate.
  - assert (Hho0 : 0 <= ho) by (destruct Hho as [(-> & _)|(-> & _)]; lia).
    replace (ho + 5) with (ho + 3 + 2) in Hu by lia.
    apply unpack_u16_range in Hu; [|lia]. destruct Hu as [_ Hrange].
    destruct (list_pointers_shape data ho (range (Z.min n 20)) (cell_pointers r)
                Hho0 (range_nonneg _) Hl) as [Hlen Hall].
    rewrite range_length in Hlen.
    split; [lia|]. split.
    + eapply Forall_impl; [|exact Hall]. cbn beta.
      intros p (Hin & Hr & Hv). apply range_in in Hin.
      split; [lia|]. split; assumption.
    + intros n' Hn'. rewrite Hn in Hn'. injection Hn' as <-.
      split; [assumption|]. unfold len. lia.
Qed.

Lemma analyze_pointer_listing_witness :
  analyze_buffer listing_page = Ok listing_report
  /\ cell_pointers listing_report
     = [PointerLine 0 12 true; PointerLine 1 65535 false]
  /\ (length (cell_pointers listing_report) <= 20)%nat
  /\ Forall (fun p => 0 <= cell_index p < 20
                      /\ 0 <= cell_ptr p < 65536
                      /\ ptr_valid p = (cell_ptr p <? len listing_page))
            (cell_pointers listing_report)
  /\ forall n, num_cells listing_report = Some n ->
               0 <= n < 65536 /\ len (cell_pointers listing_report) <= n.
Proof.
  split; [vm_compute; reflexivity|].
  split; [reflexivity|].
  apply (analyze_pointer_listing listing_page listing_report).
  vm_compute. reflexivity.
Defined.

(** X18: when a run parses a cell, it is the cell at the first pointer of
    its listing: that line has index 0 and the verdict "valid", and the
    result kept in the report is what [parse_cell] returns there. *)
Theorem analyze_first_cell_is_first_pointer
  (data : bytes) (r : report) (c : option cell) :
  analyze_buffer data = Ok r -> first_cell r = Some c ->
  exists p rest,
    cell_pointers r = p :: rest
    /\ cell_index p = 0 /\ ptr_valid p = true
    /\ parse_cell data (cell_ptr p) = Ok c.
Proof.
  intros H Hc. apply analyze_buffer_inv in H.
  destruct H as (ho & Hho & _ & _ & [(_ & _ & _ & Hf)|(n & _ & _ & _ & Hl & Hfirst)]);
    [congruence|].
  assert (Hho0 : 0 <= ho) by (destruct Hho as [(-> & _)|(-> & _)]; lia).
  destruct Hfirst as [(_ & Hf)|(fp & Hn & Hfp & [(_ & Hf)|(c' & Hv & Hparse & Hf)])];
    try congruence.
  rewrite Hf in Hc. injection Hc as ->.
  pose proof (unpack_u16_range data (ho + 8) fp ltac:(lia) Hfp) as [Hin _].
  unfold range in Hl.
  destruct (Z.to_nat (Z.min n 20)) as [|k] eqn:Hk; [lia|].
  cbn [seq map list_pointers] in Hl.
  replace (ho + 8 + Z.of_nat 0 * 2) with (ho + 8) in Hl by lia.
  destruct (Z.leb_spec (ho + 8 + 2) (len data)); [|lia].
  rewrite Hfp in Hl. cbn [bind] in Hl.
  destruct (list_pointers (map Z.of_nat (seq 1 k)) data ho) as [ls|e];
    cbn [bind] in Hl; [|discriminate].
  injection Hl as Hl.
  exists (PointerLine (Z.of_nat 0) fp (fp <? len data)), ls.
  split; [symmetry; assumption|]. cbn [cell_index cell_ptr ptr_valid].
  split; [reflexivity|]. split; [apply Z.ltb_lt; assumption | assumption].
Qed.

Lemma analyze_first_cell_is_first_pointer_witness :
  exists p rest,
    cell_pointers
      (Report 16 false None
              (hex_dump (bytes_of [13;0;0;0;1;0;0;0;0;10;4;1;3;6;1;42]) 0 128)
              (Some 13) (Some LeafTable) (Some 1) [PointerLine 0 10 true]
              (Some (Some (Cell 1 [None; Some (VInt 42)]))))
    = p :: rest
    /\ cell_index p = 0 /\ ptr_valid p = true
    /\ parse_cell (bytes_of [13;0;0;0;1;0;0;0;0;10;4;1;3;6;1;42]) (cell_ptr p)
       = Ok (Some (Cell 1 [None; Some (VInt 42)])).
Proof.
  apply (analyze_first_cell_is_first_pointer
           (bytes_of [13;0;0;0;1;0;0;0;0;10;4;1;3;6;1;42])).
  - reflexivity.
  - reflexivity.
Defined.

Lemma getitem_past_end {A : Type} (s : list A) (k : Z) :
  0 <= k -> len s <= k -> getitem s k = Raise IndexError.
Proof.
  intros Hk Hlen. unfold getitem. destruct (Z.ltb_spec k 0); [lia|].
  destruct (Z.ltb_spec k 0); [lia|].
  destruct (nth_error s (Z.to_nat k)) eqn:E; [|reflexivity].
  assert (nth_error s (Z.to_nat k) <> None) as Hn by congruence.
  apply nth_error_Some in Hn. unfold len in Hlen. lia.
Qed.

Lemma bytes_eqb_eq (a b : bytes) : bytes_eqb a b = true <-> a = b.
Proof.
  unfold bytes_eqb. destruct (list_eq_dec Byte.byte_eq_dec a b); split;
    congruence.
Qed.

(** X19: the header check of a run.  The header counts as present exactly
    when the buffer starts with the six bytes [SQLite]; the page size is
    then the big-endian number at bytes 16 and 17 and the page type the
    byte at offset 100; otherwise no page size is reported and the page
    type is the byte at offset 0.  The page type is [None] when the buffer
    ends before that byte. *)
Theorem analyze_header_check (data : bytes) (r : report) :
  analyze_buffer data = Ok r ->
  let header_offset := if header_present r then 100 else 0 in
  (header_present r = true <-> slice_to data 6 = magic)
  /\ page_size r = (if header_present r then Some (be_uint (slice data 16 18))
                    else None)
  /\ page_type r = match getitem data header_offset with
                   | Ok b => Some (byte_val b)
                   | Raise _ => None
                   end
  /\ page_type_name r = option_map type_name (page_type r).
Proof.
  intros H. cbv zeta. apply analyze_buffer_inv in H.
  destruct H as (ho & Hho & Hpt & Hname & _).
  destruct Hho as [(-> & Hp & Hs & Hm)|(-> & Hp & Hm & ps & Hs & Hu)]; rewrite Hp.
  - split.
    + split; [discriminate|]. intros E. apply bytes_eqb_eq in E. congruence.
    + split; [assumption|]. split; [|assumption].
      destruct Hpt as [(Hlen & ->)|(b & _ & -> & ->)]; [|reflexivity].
      rewrite getitem_past_end by lia. reflexivity.
  - pose proof (unpack_unsigned_ok _ _ _ Hu) as [_ ->].
    split.
    + split; [intros _; apply bytes_eqb_eq; assumption | reflexivity].
    + split; [assumption|]. split; [|assumption].
      destruct Hpt as [(Hlen & ->)|(b & _ & -> & ->)]; [|reflexivity].
      rewrite getitem_past_end by lia. reflexivity.
Qed.

Lemma analyze_header_check_witness :
  header_present
    (Report 1 false None (hex_dump (bytes_of [5]) 0 128) (Some 5)
            (Some InteriorTable) None [] None) = true
  <-> slice_to (bytes_of [5]) 6 = magic.
Proof.
  apply (analyze_header_check
           (bytes_of [5])
           (Report 1 false None (hex_dump (bytes_of [5]) 0 128) (Some 5)
                   (Some InteriorTable) None [] None)).
  reflexivity.
Defined.


(** X20: a buffer that does not start with the magic bytes and whose first
    byte is not [0x0d] goes through the run whatever its length, the empty
    buffer included: no header, no cell count, no pointer and no cell are
    reported, the page type being the first byte, if any. *)
Theorem analyze_plain_buffer (data : bytes) :
  bytes_eqb (slice_to data 6) magic = false ->
  (forall b, getitem data 0 = Ok b -> byte_val b <> 0x0d) ->
  exists r,
    analyze_buffer data = Ok r
    /\ header_present r = false /\ page_size r = None
    /\ page_type r = match data with
                     | [] => None
                     | b :: _ => Some (byte_val b)
                     end
    /\ num_cells r = None /\ cell_pointers r = [] /\ decoded_cells r = [].
Proof.
  intros Hm Hb. unfold analyze_buffer. rewrite Hm. cbn [bind].
  destruct data as [|b rest].
  - cbn. eexists. split; [reflexivity|]. repeat split; reflexivity.
  - assert (Hlen : 0 < len (b :: rest)) by (unfold len; simpl length; lia).
    destruct (Z.ltb_spec 0 (len (b :: rest))); [|lia].
    change (getitem (b :: rest) 0) with (Ok b). cbn [bind page_type_is].
    specialize (Hb b eq_refl).
    destruct (Z.eqb_spec (byte_val b) 13); [contradiction|].
    eexists. split; [reflexivity|]. repeat split; reflexivity.
Qed.

Lemma analyze_plain_buffer_witness :
  exists r,
    analyze_buffer [] = Ok r
    /\ header_present r = false /\ page_size r = None
    /\ page_type r = None
    /\ num_cells r = None /\ cell_pointers r = [] /\ decoded_cells r = [].
Proof.
  apply (analyze_plain_buffer []).
  - reflexivity.
  - intros b H. discriminate.
Defined.

(** X21: when a run is aborted, it is by [struct.error], never by an index
    out of range, and only on a buffer of fewer than 110 bytes, too short
    for the file header and the first ten bytes of the page header. *)
Theorem analyze_raises_only_struct_error (data : bytes) (e : exn) :
  analyze_buffer data = Raise e -> e = StructError /\ len data < 110.
Proof.
  intros H. split.
  - revert H. unfold analyze_buffer.
    assert (Hstep : forall header_offset present (page_size : option Z),
               0 <= header_offset ->
               bind (if header_offset <? len data
                     then b <- getitem data header_offset ;; Ok (Some (byte_val b))
                     else Ok None)
                    (fun page_type =>
                       let name := option_map type_name page_type in
                       if page_type_is page_type 13 then
                         num_cells <-
                           unpack_unsigned 2 (slice data (header_offset + 3)
                                                    (header_offset + 5)) ;;
                         pointers <-
                           list_pointers (range (Z.min num_cells 20)) data
                                         header_offset ;;
                         first <-
                           (if num_cells >? 0 then
                              let first_ptr_offset := header_offset + 8 in
                              first_ptr <-
                                unpack_unsigned 2
                                  (slice data first_ptr_offset (first_ptr_offset + 2)) ;;
                              if first_ptr <? len data then
                                r <- parse_cell data first_ptr ;; Ok (Some r)
                              else Ok None
                            else Ok None) ;;
                         Ok (Report (len data) present page_size
                                    (hex_dump data 0 128) page_type name
                                    (Some num_cells) pointers first)
                       else
                         Ok (Report (len data) present page_size
                                    (hex_dump data 0 128) page_type name
                                    None [] None))
               = Raise e -> e = StructError).
    { intros ho present psz Hho.
      destruct (Z.ltb_spec ho (len data)) as [Hlt|Hge].
      - destruct (getitem_in_range data ho) as (b & -> & _); [lia|]. cbn [bind].
        destruct (page_type_is (Some (byte_val b)) 13); [|discriminate].
        destruct (unpack_unsigned 2 (slice data (ho + 3) (ho + 5))) as [n|e'] eqn:Hn;
          cbn [bind];
          [|intros H; injection H as <-; apply (unpack_unsigned_raises _ _ _ Hn)].
        destruct (list_pointers_total data ho (range (Z.min n 20)) Hho
                                      (range_nonneg _)) as [ls ->].
        cbn [bind].
        destruct (n >? 0); [|discriminate].
        destruct (unpack_unsigned 2 (slice data (ho + 8) (ho + 8 + 2)))
          as [fp|e'] eqn:Hfp; cbn [bind];
          [|intros H; injection H as <-; apply (unpack_unsigned_raises _ _ _ Hfp)].
        destruct (fp <? len data); [|discriminate].
        apply unpack_unsigned_ok in Hfp. destruct Hfp as [_ ->].
        destruct (parse_cell_total data (be_uint (slice data (ho + 8) (ho + 8 + 2)))
                                   (be_uint_nonneg _)) as [c ->].
        discriminate.
      - cbn [bind page_type_is]. discriminate. }
    destruct (bytes_eqb (slice_to data 6) magic).
    + destruct (unpack_unsigned 2 (slice data 16 18)) as [ps|e'] eqn:Hps;
        cbn [bind];
        [|intros H; injection H as <-; apply (unpack_unsigned_raises _ _ _ Hps)].
      apply Hstep. lia.
    + cbn [bind]. apply Hstep. lia.
  - destruct (Z.lt_ge_cases (len data) 110) as [|Hge]; [assumption|].
    destruct (analyze_buffer_total_long data Hge) as [r Hr]. congruence.
Qed.

Lemma analyze_raises_only_struct_error_witness :
  StructError = StructError /\ len (bytes_of [0x0d]) < 110.
Proof.
  apply (analyze_raises_only_struct_error (bytes_of [0x0d]) StructError).
  reflexivity.
Defined.

(** ** Reads stay inside the buffer *)

(** X22: at a position inside or after the buffer [read_varint] raises
    nothing, and the offset it hands back is the one it was given or a
    later one inside the buffer. *)
Theorem read_varint_total (data : bytes) (offset : Z) :
  0 <= offset ->
  exists v off',
    read_varint data offset = Ok (v, off')
    /\ offset <= off' <= Z.max offset (len data).
Proof.
  intros Ho.
  destruct (read_varint_shape data offset Ho) as [H|(v & off' & H & Hoff & _)].
  - exists None, offset. split; [assumption|lia].
  - exists (Some v), off'. split; [assumption|lia].
Qed.

Lemma read_varint_total_witness :
  exists v off',
    read_varint (bytes_of [0x81]) 5 = Ok (v, off')
    /\ 5 <= off' <= Z.max 5 (len (bytes_of [0x81])).
Proof. apply (read_varint_total (bytes_of [0x81]) 5). lia. Defined.

(** X23: at a position inside or after the buffer [decode_serial_type]
    raises nothing; the offset it hands back is the one it was given or a
    later one inside the buffer, so that no column is ever read from
    beyond the end of the buffer. *)
Theorem decode_serial_type_total (st : Z) (data : bytes) (offset : Z) :
  0 <= offset ->
  exists v off',
    decode_serial_type st data offset = Ok (v, off')
    /\ offset <= off' <= Z.max offset (len data).
Proof.
  intros Ho.
  destruct (decode_serial_type_shape st data offset Ho) as (v & off' & H & Hle & Hnone).
  exists v, off'. split; [assumption|]. split; [assumption|].
  destruct v as [v|]; [|rewrite Hnone by reflexivity; lia].
  pose proof (decode_some_width _ _ _ _ _ H) as Hw.
  destruct (Z.eq_dec st 8) as [->|H8]; [cbn in Hw; lia|].
  destruct (Z.eq_dec st 9) as [->|H9]; [cbn in Hw; lia|].
  destruct (Z.le_gt_cases (offset + serial_type_width st) (len data)) as [|Hgt]; [lia|].
  rewrite (decode_absent_when st data offset) in H; [discriminate|].
  right. split; [assumption|]. split; [assumption|lia].
Qed.

Lemma decode_serial_type_total_witness :
  exists v off',
    decode_serial_type 6 (bytes_of [1; 2; 3]) 1 = Ok (v, off')
    /\ 1 <= off' <= Z.max 1 (len (bytes_of [1; 2; 3])).
Proof. apply (decode_serial_type_total 6 (bytes_of [1; 2; 3]) 1). lia. Defined.

(** ** The column loop *)

Lemma decode_columns_consumed (data : bytes) (sts : list Z) :
  forall body_offset acc res off',
    decode_columns data sts body_offset acc = Ok (res, off') ->
    exists cols,
      res = acc ++ cols /\ length cols = length sts
      /\ off' = body_offset + consumed_width sts cols.
Proof.
  induction sts as [|st rest IH]; intros body_offset acc res off' H;
    cbn [decode_columns] in H.
  - injection H as <- <-. exists []. rewrite app_nil_r.
    split; [reflexivity|]. split; [reflexivity|]. cbn. lia.
  - destruct (decode_serial_type st data body_offset) as [[v off1]|e] eqn:Hd;
      cbn [bind] in H; [|discriminate].
    destruct (IH _ _ _ _ H) as (cols & -> & Hlen & ->).
    exists (v :: cols). rewrite <- app_assoc.
    split; [reflexivity|]. split; [simpl; lia|].
    cbn [consumed_width].
    destruct v as [v|].
    + rewrite (decode_some_width _ _ _ _ _ Hd). lia.
    + rewrite (decode_none_offset _ _ _ _ Hd). lia.
Qed.

(** X24: the column loop yields one slot for each serial type, in order,
    and leaves the body offset at its start plus the widths of the serial
    types whose column came out with a value; a column without a value
    adds nothing. *)
Theorem decode_columns_offsets
  (data : bytes) (sts : list Z) (body_offset off' : Z)
  (cols : list (option value)) :
  decode_columns data sts body_offset [] = Ok (cols, off') ->
  length cols = length sts /\ off' = body_offset + consumed_width sts cols.
Proof.
  intros H. destruct (decode_columns_consumed _ _ _ _ _ _ H) as (c & E & Hl & Ho).
  cbn [app] in E. subst c. split; assumption.
Qed.

Lemma decode_columns_offsets_witness :
  length [None; Some (VInt 42)] = length [6; 1]
  /\ 1 = 0 + consumed_width [6; 1] [None; Some (VInt 42)].
Proof.
  apply (decode_columns_offsets (bytes_of [42]) [6; 1] 0 1 [None; Some (VInt 42)]).
  reflexivity.
Defined.

(** X25: when the body starts beyond the end of the buffer, every column
    comes out without a value, except those of the constant serial types
    8 and 9, which need no byte; the body offset stays where it is. *)
Theorem decode_columns_past_end (data : bytes) (sts : list Z) (body_offset : Z) :
  len data < body_offset ->
  forall acc,
    decode_columns data sts body_offset acc
    = Ok (acc ++ map (fun st => if st =? 8 then Some (VInt 0)
                                else if st =? 9 then Some (VInt 1)
                                else None) sts,
          body_offset).
Proof.
  intros Hpast. induction sts as [|st rest IH]; intros acc; cbn [decode_columns map].
  - rewrite app_nil_r. reflexivity.
  - assert (Hd : decode_serial_type st data body_offset
                 = Ok (if st =? 8 then Some (VInt 0)
                       else if st =? 9 then Some (VInt 1) else None, body_offset)).
    { destruct (Z.eqb_spec st 8) as [->|H8]; [reflexivity|].
      destruct (Z.eqb_spec st 9) as [->|H9]; [reflexivity|].
      apply decode_absent_when. right.
      pose proof (width_nonneg st). split; [assumption|]. split; [assumption|lia]. }
    rewrite Hd. cbn [bind]. rewrite IH, <- app_assoc. reflexivity.
Qed.

Lemma decode_columns_past_end_witness :
  decode_columns (bytes_of [1; 2]) [1; 8; 13] 5 []
  = Ok ([] ++ map (fun st => if st =? 8 then Some (VInt 0)
                             else if st =? 9 then Some (VInt 1)
                             else None) [1; 8; 13],
        5).
Proof.
  apply (decode_columns_past_end (bytes_of [1; 2]) [1; 8; 13] 5).
  vm_compute. reflexivity.
Defined.

(** * Well-formed cells are parsed back *)

(** ** Fields *)

Lemma slice_middle {A : Type} (pre mid suf : list A) :
  slice (pre ++ mid ++ suf) (len pre) (len pre + len mid) = mid.
Proof.
  pose proof (len_nonneg pre). pose proof (len_nonneg mid).
  pose proof (len_nonneg suf).
  rewrite slice_inside by (rewrite ?len_app; lia).
  replace (Z.to_nat (len pre + len mid - len pre)) with (length mid)
    by (unfold len; lia).
  replace (Z.to_nat (len pre)) with (length pre) by (unfold len; lia).
  rewrite skipn_app, skipn_all, Nat.sub_diag. cbn [skipn app].
  rewrite firstn_app, firstn_all, Nat.sub_diag. cbn [firstn].
  apply app_nil_r.
Qed.

Lemma be_bytes_length (w : nat) : forall u, length (be_bytes w u) = w.
Proof.
  induction w as [|w IH]; intros u; cbn [be_bytes]; [reflexivity|].
  rewrite length_app, IH. simpl. lia.
Qed.

Lemma be_uint_be_bytes (w : nat) :
  forall u, 0 <= u < 256 ^ Z.of_nat w -> be_uint (bytes_of (be_bytes w u)) = u.
Proof.
  induction w as [|w IH]; intros u Hu.
  - simpl in Hu. cbn. lia.
  - cbn [be_bytes]. rewrite bytes_of_app. cbn [bytes_of map].
    rewrite be_uint_snoc.
    rewrite Nat2Z.inj_succ, Z.pow_succ_r in Hu by lia.
    pose proof (Z.mod_pos_bound u 256 ltac:(lia)).
    rewrite byte_val_of_Z by lia.
    fold (bytes_of (be_bytes w (u / 256))).
    rewrite IH
      by (split; [apply Z.div_pos; lia | apply Z.div_lt_upper_bound; lia]).
    pose proof (Z.div_mod u 256 ltac:(lia)). lia.
Qed.

Lemma sign_extend_mod (bits z : Z) :
  1 <= bits -> - 2 ^ (bits - 1) <= z < 2 ^ (bits - 1) ->
  sign_extend bits (z mod 2 ^ bits) = z.
Proof.
  intros Hb Hz.
  assert (Hp : 2 ^ bits = 2 * 2 ^ (bits - 1)).
  { replace bits with ((bits - 1) + 1) at 1 by lia.
    rewrite Z.pow_add_r by lia. change (2 ^ 1) with 2. lia. }
  pose proof (Z.pow_pos_nonneg 2 (bits - 1) ltac:(lia) ltac:(lia)) as Hpos.
  pose proof (Z.mod_pos_bound z (2 ^ bits) ltac:(lia)) as Hm.
  rewrite <- sign_extend_by_compare by lia.
  destruct (Z.lt_ge_cases z 0) as [Hneg|Hnn].
  - assert (Hu : z mod 2 ^ bits = z + 2 ^ bits)
      by (symmetry; apply Z.mod_unique with (-1); lia).
    rewrite Hu. destruct (Z.ltb_spec (z + 2 ^ bits) (2 ^ (bits - 1))); lia.
  - rewrite Z.mod_small by lia.
    destruct (Z.ltb_spec z (2 ^ (bits - 1))); lia.
Qed.

(** ** Text *)


Lemma utf8_decode_encode_cp (cp : Z) (rest : bytes) :
  scalar_value cp ->
  utf8_decode (bytes_of (utf8_encode_cp cp) ++ rest)
  = option_map (cons cp) (utf8_decode rest).
Proof.
  unfold scalar_value, utf8_encode_cp. intros Hcp.
  destruct (Z.ltb_spec cp 128) as [H1|H1];
    [|destruct (Z.ltb_spec cp 2048) as [H2|H2];
      [|destruct (Z.ltb_spec cp 65536) as [H3|H3]]];
    cbn [bytes_of map app utf8_decode]; cbv zeta;
    rewrite !byte_val_of_Z by (Z.div_mod_to_equations; lia);
    unfold is_cont, in_range, second_lo, second_hi;
    Z.div_mod_to_equations.
  - step_if; [reflexivity | absurd_test].
  - step_if; [absurd_test|]. step_if; [|absurd_test].
    step_if; [|absurd_test]. do 2 f_equal. lia.
  - step_if; [absurd_test|]. step_if; [absurd_test|].
    step_if; [|absurd_test]. step_if; [|absurd_test]. do 2 f_equal. lia.
  - step_if; [absurd_test|]. step_if; [absurd_test|].
    step_if; [absurd_test|]. step_if; [|absurd_test].
    step_if; [|absurd_test]. do 2 f_equal. lia.
Qed.

Lemma utf8_decode_encode (cps : list Z) :
  Forall scalar_value cps -> utf8_decode (utf8_encode cps) = Some cps.
Proof.
  unfold utf8_encode. induction 1 as [|cp cps Hcp _ IH]; [reflexivity|].
  cbn [flat_map]. rewrite bytes_of_app, utf8_decode_encode_cp by assumption.
  rewrite IH. reflexivity.
Qed.

Lemma decode_text_encode (cps : list Z) :
  Forall scalar_value cps -> decode_text (utf8_encode cps) = cps.
Proof. intros H. unfold decode_text. rewrite utf8_decode_encode by assumption. reflexivity. Qed.

(** ** Columns *)

Lemma decode_integer_at (st : Z) (data : bytes) (offset : Z) :
  1 <= st <= 6 -> 0 <= offset -> offset + serial_type_width st <= len data ->
  decode_serial_type st data offset
  = Ok (Some (VInt (sign_extend (8 * serial_type_width st)
                      (be_uint (slice data offset (offset + serial_type_width st))))),
        offset + serial_type_width st).
Proof.
  intros Hst Ho Hlen.
  assert (Hc : st = 1 \/ st = 2 \/ st = 3 \/ st = 4 \/ st = 5 \/ st = 6) by lia.
  unfold decode_serial_type.
  repeat destruct Hc as [-> | Hc]; try subst st;
    cbn [serial_type_width Z.eqb Pos.eqb Z.mul Pos.mul] in *;
    match goal with
    | |- context [?a >? ?b] => destruct (Z.gtb_spec a b) as [|_]; [lia|]
    end.
  - rewrite unpack_signed_field by lia. reflexivity.
  - rewrite unpack_signed_field by lia. reflexivity.
  - destruct (slice_three data offset) as (b0 & b1 & b2 & Hs); try lia.
    rewrite Hs.
    change (getitem [b0; b1; b2] 0) with (Ok b0).
    change (getitem [b0; b1; b2] 1) with (Ok b1).
    change (getitem [b0; b1; b2] 2) with (Ok b2).
    cbn [bind]. rewrite be_three.
    change 8388608 with (2 ^ (24 - 1)). change 16777216 with (2 ^ 24).
    rewrite sign_test by lia. reflexivity.
  - rewrite unpack_signed_field by lia. reflexivity.
  - rewrite be_fold_lor. fold (be_uint (slice data offset (offset + 6))).
    change 140737488355328 with (2 ^ (48 - 1)).
    change 281474976710656 with (2 ^ 48).
    rewrite sign_test by lia. reflexivity.
  - rewrite unpack_signed_field by lia. reflexivity.
Qed.

Lemma decode_blob_at (st n : Z) (data : bytes) (offset : Z) :
  0 <= n -> st = 12 + 2 * n -> offset + n <= len data ->
  decode_serial_type st data offset
  = Ok (Some (VBytes (slice data offset (offset + n))), offset + n).
Proof.
  intros Hn -> Hlen.
  assert (Hmod : (12 + 2 * n) mod 2 = 0).
  { replace (12 + 2 * n) with ((n + 6) * 2) by lia. apply Z.mod_mul. lia. }
  assert (Hdiv : (12 + 2 * n - 12) / 2 = n).
  { replace (12 + 2 * n - 12) with (n * 2) by lia. apply Z.div_mul. lia. }
  unfold decode_serial_type.
  repeat match goal with
         | |- context [12 + 2 * n =? ?b] =>
             destruct (Z.eqb_spec (12 + 2 * n) b); [lia|]
         end.
  destruct (Z.geb_spec (12 + 2 * n) 12); [|lia].
  rewrite Hmod, Hdiv. cbn [Z.eqb andb].
  destruct (Z.gtb_spec (offset + n) (len data)); [lia|]. reflexivity.
Qed.

Lemma decode_text_at (st n : Z) (data : bytes) (offset : Z) :
  0 <= n -> st = 13 + 2 * n -> offset + n <= len data ->
  decode_serial_type st data offset
  = Ok (Some (VStr (decode_text (slice data offset (offset + n)))), offset + n).
Proof.
  intros Hn -> Hlen.
  assert (Hmod : (13 + 2 * n) mod 2 = 1).
  { replace (13 + 2 * n) with (1 + (n + 6) * 2) by lia.
    rewrite Z.mod_add by lia. reflexivity. }
  assert (Hdiv : (13 + 2 * n - 13) / 2 = n).
  { replace (13 + 2 * n - 13) with (n * 2) by lia. apply Z.div_mul. lia. }
  unfold decode_serial_type.
  repeat match goal with
         | |- context [13 + 2 * n =? ?b] =>
             destruct (Z.eqb_spec (13 + 2 * n) b); [lia|]
         end.
  destruct (Z.geb_spec (13 + 2 * n) 12); [|lia].
  destruct (Z.geb_spec (13 + 2 * n) 13); [|lia].
  rewrite Hmod, Hdiv. cbn [Z.eqb andb].
  destruct (Z.gtb_spec (offset + n) (len data)); [lia|]. reflexivity.
Qed.

Lemma len_bytes_of (l : list Z) : len (bytes_of l) = len l.
Proof. unfold len, bytes_of. rewrite length_map. reflexivity. Qed.

Lemma len_be_bytes (w : nat) (u : Z) : len (bytes_of (be_bytes w u)) = Z.of_nat w.
Proof. rewrite len_bytes_of. unfold len. rewrite be_bytes_length. reflexivity. Qed.

Lemma width_integer (st : Z) : 1 <= st <= 6 -> 1 <= serial_type_width st <= 8.
Proof.
  intros Hst.
  assert (Hc : st = 1 \/ st = 2 \/ st = 3 \/ st = 4 \/ st = 5 \/ st = 6) by lia.
  repeat destruct Hc as [-> | Hc]; try subst st; cbn; lia.
Qed.

Lemma pow256 (w : Z) : 0 <= w -> 256 ^ w = 2 ^ (8 * w).
Proof. intros Hw. change 256 with (2 ^ 8). rewrite <- Z.pow_mul_r by lia. reflexivity. Qed.

(** A stored column decodes to its value, and the offset moves past its
    bytes. *)
Lemma decode_stored_column (c : column) (pre suf : bytes) :
  column_ok c ->
  decode_serial_type (column_type c) (pre ++ column_bytes c ++ suf) (len pre)
  = Ok (column_value c, len pre + len (column_bytes c)).
Proof.
  intros Hok. pose proof (len_nonneg pre) as Hpre.
  pose proof (len_nonneg suf) as Hsuf.
  destruct c as [|st z| | |bits|bs|cps]; cbn [column_type column_bytes column_value].
  - change (len (@nil byte)) with 0. rewrite Z.add_0_r. reflexivity.
  - destruct Hok as [Hst Hz].
    pose proof (width_integer st Hst) as Hw.
    set (w := serial_type_width st) in *.
    set (field := bytes_of (be_bytes (Z.to_nat w) (z mod 2 ^ (8 * w)))).
    assert (Hlen : len field = w)
      by (unfold field; rewrite len_be_bytes; lia).
    rewrite decode_integer_at by (rewrite ?len_app; fold w; lia).
    fold w. rewrite <- Hlen at 2. rewrite slice_middle. rewrite Hlen.
    unfold field. rewrite be_uint_be_bytes.
    + rewrite sign_extend_mod by lia. reflexivity.
    + rewrite Z2Nat.id, pow256 by lia. apply Z.mod_pos_bound.
      apply Z.pow_pos_nonneg; lia.
  - change (len (@nil byte)) with 0. rewrite Z.add_0_r. reflexivity.
  - change (len (@nil byte)) with 0. rewrite Z.add_0_r. reflexivity.
  - cbn in Hok.
    assert (Hlen : len (bytes_of (be_bytes 8 bits)) = 8) by (rewrite len_be_bytes; reflexivity).
    unfold decode_serial_type. cbn [Z.eqb Pos.eqb].
    destruct (Z.gtb_spec (len pre + 8) (len (pre ++ bytes_of (be_bytes 8 bits) ++ suf)));
      [rewrite !len_app in *; lia|].
    rewrite unpack_unsigned_slice by (rewrite ?len_app; lia).
    cbn [bind]. rewrite <- Hlen at 1. rewrite slice_middle.
    rewrite be_uint_be_bytes by (change (256 ^ Z.of_nat 8) with (2 ^ 64); lia).
    rewrite Hlen. reflexivity.
  - pose proof (len_nonneg bs).
    rewrite (decode_blob_at _ (len bs)) by (rewrite ?len_app; lia).
    rewrite slice_middle. reflexivity.
  - destruct Hok as [Hcps _]. pose proof (len_nonneg (utf8_encode cps)).
    rewrite (decode_text_at _ (len (utf8_encode cps))) by (rewrite ?len_app; lia).
    rewrite slice_middle, decode_text_encode by assumption. reflexivity.
Qed.

(** ** Header and body *)

Lemma column_type_range (c : column) : column_ok c -> 0 <= column_type c < 2 ^ 64.
Proof.
  destruct c as [|st z| | |bits|bs|cps]; cbn [column_ok column_type]; intros H;
    try lia.
  - pose proof (len_nonneg bs). lia.
  - pose proof (len_nonneg (utf8_encode cps)). lia.
Qed.

Lemma len_encode_varint (v : Z) : len (encode_varint v) = Z.of_nat (varint_width v).
Proof. unfold len. rewrite encode_varint_length. reflexivity. Qed.

Lemma varint_width_pos (v : Z) : 1 <= Z.of_nat (varint_width v) <= 9.
Proof. pose proof (varint_width_range v). lia. Qed.

(** The header loop reads back the serial types of the columns. *)
Lemma read_serial_types_encode (cols : list column) :
  forall (pre suf : bytes) (fuel : nat) (acc : list Z),
    Forall column_ok cols -> (length cols < fuel)%nat ->
    read_serial_types fuel (pre ++ cell_types cols ++ suf) (len pre)
                      (len pre + len (cell_types cols)) acc
    = Ok (acc ++ map column_type cols).
Proof.
  induction cols as [|c cols IH]; intros pre suf fuel acc Hok Hfuel.
  - destruct fuel as [|fuel]; [simpl in Hfuel; lia|].
    cbn [read_serial_types cell_types flat_map map].
    change (len (@nil byte)) with 0.
    destruct (Z.ltb_spec (len pre) (len pre + 0)); [lia|].
    rewrite app_nil_r. reflexivity.
  - destruct fuel as [|fuel]; [simpl in Hfuel; lia|].
    inversion Hok as [|? ? Hc Hrest]; subst.
    cbn [read_serial_types cell_types flat_map map].
    fold (cell_types cols).
    pose proof (varint_width_pos (column_type c)) as Hw.
    pose proof (len_nonneg (cell_types cols)).
    rewrite len_app, len_encode_varint.
    destruct (Z.ltb_spec (len pre)
                (len pre + (Z.of_nat (varint_width (column_type c))
                            + len (cell_types cols)))); [|lia].
    rewrite <- app_assoc.
    rewrite read_varint_encode by (apply column_type_range; assumption).
    cbn [bind].
    replace (pre ++ encode_varint (column_type c) ++ cell_types cols ++ suf)
      with ((pre ++ encode_varint (column_type c)) ++ cell_types cols ++ suf)
      by (rewrite <- app_assoc; reflexivity).
    replace (len pre + Z.of_nat (varint_width (column_type c)))
      with (len (pre ++ encode_varint (column_type c)))
      by (rewrite len_app, len_encode_varint; reflexivity).
    replace (len pre + (Z.of_nat (varint_width (column_type c))
                        + len (cell_types cols)))
      with (len (pre ++ encode_varint (column_type c)) + len (cell_types cols))
      by (rewrite len_app, len_encode_varint; lia).
    rewrite IH by (try assumption; simpl in Hfuel; lia).
    rewrite <- app_assoc. reflexivity.
Qed.

(** The column loop reads back the values of the columns. *)
Lemma decode_columns_encode (cols : list column) :
  forall (pre suf : bytes) (acc : list (option value)),
    Forall column_ok cols ->
    decode_columns (pre ++ cell_body cols ++ suf) (map column_type cols)
                   (len pre) acc
    = Ok (acc ++ map column_value cols, len pre + len (cell_body cols)).
Proof.
  induction cols as [|c cols IH]; intros pre suf acc Hok.
  - cbn [decode_columns cell_body flat_map map].
    change (len (@nil byte)) with 0. rewrite app_nil_r, Z.add_0_r. reflexivity.
  - inversion Hok as [|? ? Hc Hrest]; subst.
    cbn [decode_columns cell_body flat_map map]. fold (cell_body cols).
    rewrite <- app_assoc.
    rewrite decode_stored_column by assumption. cbn [bind].
    replace (pre ++ column_bytes c ++ cell_body cols ++ suf)
      with ((pre ++ column_bytes c) ++ cell_body cols ++ suf)
      by (rewrite <- app_assoc; reflexivity).
    replace (len pre + len (column_bytes c)) with (len (pre ++ column_bytes c))
      by (rewrite len_app; reflexivity).
    rewrite IH by assumption.
    rewrite <- app_assoc, !len_app. do 2 f_equal. lia.
Qed.

(** The header size counts its own varint. *)
Lemma header_size_for_width (n : Z) :
  0 <= n ->
  Z.of_nat (varint_width (header_size_for n)) = header_size_for n - n.
Proof.
  intros Hn. unfold header_size_for.
  repeat match goal with
         | |- context [n + ?k <? ?b] => destruct (Z.ltb_spec (n + k) b)
         end;
    unfold varint_width;
    repeat match goal with
           | |- context [?a <? ?b] => destruct (Z.ltb_spec a b); try lia
           end.
Qed.

Lemma header_size_for_pos (n : Z) : 0 <= n -> n < header_size_for n.
Proof.
  intros Hn. unfold header_size_for.
  repeat match goal with
         | |- context [n + ?k <? ?b] => destruct (Z.ltb_spec (n + k) b)
         end; lia.
Qed.

(** [parse_cell] reads a well-formed cell back, wherever it lies in the
    buffer. *)
Lemma parse_cell_encode (pre suf : bytes) (rid : Z) (cols : list column) :
  cell_ok rid cols ->
  parse_cell (pre ++ encode_cell rid cols ++ suf) (len pre)
  = Ok (Some (stored_cell rid cols)).
Proof.
  intros (Hrid & Hcols & Hpay). unfold encode_cell, stored_cell. cbv zeta.
  set (types := cell_types cols) in *. set (body := cell_body cols) in *.
  set (hs := header_size_for (len types)) in *.
  pose proof (len_nonneg types) as Htypes. pose proof (len_nonneg body) as Hbody.
  pose proof (header_size_for_pos (len types) Htypes) as Hhs. fold hs in Hhs.
  pose proof (header_size_for_width (len types) Htypes) as Hhw. fold hs in Hhw.
  set (ps := hs + len body) in *.
  unfold parse_cell.
  (* payload size *)
  replace (pre ++ (encode_varint ps ++ encode_varint rid ++ encode_varint hs
                   ++ types ++ body) ++ suf)
    with (pre ++ encode_varint ps
              ++ (encode_varint rid ++ encode_varint hs ++ types ++ body ++ suf))
    by (rewrite <- !app_assoc; reflexivity).
  rewrite read_varint_encode by lia. cbn [bind].
  (* row id *)
  set (p1 := len pre + Z.of_nat (varint_width ps)).
  replace (pre ++ encode_varint ps
               ++ encode_varint rid ++ encode_varint hs ++ types ++ body ++ suf)
    with ((pre ++ encode_varint ps)
            ++ encode_varint rid ++ (encode_varint hs ++ types ++ body ++ suf))
    by (rewrite <- !app_assoc; reflexivity).
  replace p1 with (len (pre ++ encode_varint ps))
    by (unfold p1; rewrite len_app, len_encode_varint; reflexivity).
  rewrite read_varint_encode by lia. cbn [bind].
  (* header size *)
  replace ((pre ++ encode_varint ps)
             ++ encode_varint rid ++ encode_varint hs ++ types ++ body ++ suf)
    with (((pre ++ encode_varint ps) ++ encode_varint rid)
            ++ encode_varint hs ++ (types ++ body ++ suf))
    by (rewrite <- !app_assoc; reflexivity).
  replace (len (pre ++ encode_varint ps) + Z.of_nat (varint_width rid))
    with (len ((pre ++ encode_varint ps) ++ encode_varint rid))
    by (rewrite (len_app (pre ++ encode_varint ps)), len_encode_varint; reflexivity).
  rewrite read_varint_encode by lia. cbn [bind].
  (* serial types and columns *)
  set (front := (pre ++ encode_varint ps) ++ encode_varint rid).
  unfold parse_record.
  replace (front ++ encode_varint hs ++ types ++ body ++ suf)
    with ((front ++ encode_varint hs) ++ types ++ (body ++ suf))
    by (rewrite <- !app_assoc; reflexivity).
  replace (len front + Z.of_nat (varint_width hs))
    with (len (front ++ encode_varint hs))
    by (rewrite len_app, len_encode_varint; reflexivity).
  replace (len front + hs) with (len (front ++ encode_varint hs) + len types)
    by (rewrite len_app, len_encode_varint; lia).
  unfold types at 2 3.
  rewrite read_serial_types_encode.
  - cbn [bind app]. fold types.
    replace ((front ++ encode_varint hs) ++ types ++ body ++ suf)
      with (((front ++ encode_varint hs) ++ types) ++ body ++ suf)
      by (rewrite <- !app_assoc; reflexivity).
    replace (len (front ++ encode_varint hs) + len types)
      with (len ((front ++ encode_varint hs) ++ types))
      by (rewrite (len_app (front ++ encode_varint hs)); reflexivity).
    unfold body. rewrite decode_columns_encode by assumption.
    cbn [bind app]. reflexivity.
  - assumption.
  - unfold serial_types_bound. fold types.
    assert (Hcount : Z.of_nat (length cols) <= len types).
    { unfold types, cell_types. clear. induction cols as [|c cols IH].
      - unfold len. simpl. lia.
      - cbn [flat_map length]. rewrite len_app, len_encode_varint.
        pose proof (varint_width_pos (column_type c)). lia. }
    rewrite !len_app. pose proof (len_nonneg body). pose proof (len_nonneg suf).
    lia.
Qed.

(** ** Cells in a page *)

Lemma slice_decompose {A : Type} (data c : list A) (a : Z) :
  0 <= a -> a + len c <= len data -> slice data a (a + len c) = c ->
  exists pre suf, data = pre ++ c ++ suf /\ len pre = a.
Proof.
  intros Ha Hlen Hs. pose proof (len_nonneg c).
  rewrite slice_inside in Hs by lia.
  exists (firstn (Z.to_nat a) data),
         (skipn (Z.to_nat (a + len c - a)) (skipn (Z.to_nat a) data)).
  split.
  - rewrite <- Hs at 1. rewrite firstn_skipn, firstn_skipn. reflexivity.
  - unfold len in *. rewrite length_firstn. lia.
Qed.

Lemma encode_cell_nonempty (rid : Z) (cols : list column) :
  1 <= len (encode_cell rid cols).
Proof.
  unfold encode_cell. cbv zeta. rewrite len_app, len_encode_varint.
  pose proof (varint_width_pos
                (header_size_for (len (cell_types cols)) + len (cell_body cols))).
  pose proof (len_nonneg (encode_varint rid
                            ++ encode_varint (header_size_for (len (cell_types cols)))
                            ++ cell_types cols ++ cell_body cols)).
  lia.
Qed.

(** A well-formed cell in the buffer is parsed to the cell it stores. *)
Lemma parse_cell_at (data : bytes) (ptr rid : Z) (cols : list column) :
  cell_at data ptr rid cols ->
  parse_cell data ptr = Ok (Some (stored_cell rid cols)) /\ ptr < len data.
Proof.
  intros (Hok & Hptr & Hlen & Hs).
  pose proof (encode_cell_nonempty rid cols).
  split; [|lia].
  destruct (slice_decompose data (encode_cell rid cols) ptr Hptr Hlen Hs)
    as (pre & suf & -> & <-).
  apply parse_cell_encode. assumption.
Qed.

Lemma getitem_ok_inside {A : Type} (s : list A) (k : Z) (a : A) :
  0 <= k -> getitem s k = Ok a -> k < len s.
Proof.
  intros Hk H. destruct (Z.lt_ge_cases k (len s)) as [|Hge]; [assumption|].
  rewrite getitem_past_end in H by lia. discriminate.
Qed.

(** The run on a leaf-table page with two declared cells, from the read
    of the page type on. *)
Lemma leaf_page_run
  (data : bytes) (header_offset : Z) (present : bool) (page_size : option Z)
  (p1 p2 : Z) (c : option cell) :
  0 <= header_offset ->
  getitem data header_offset = Ok x0d ->
  unpack_unsigned 2 (slice data (header_offset + 3) (header_offset + 5)) = Ok 2 ->
  unpack_unsigned 2 (slice data (header_offset + 8) (header_offset + 10)) = Ok p1 ->
  unpack_unsigned 2 (slice data (header_offset + 10) (header_offset + 12)) = Ok p2 ->
  p1 < len data -> p2 < len data ->
  parse_cell data p1 = Ok c ->
  bind (if header_offset <? len data
        then b <- getitem data header_offset ;; Ok (Some (byte_val b))
        else Ok None)
       (fun page_type =>
          let name := option_map type_name page_type in
          if page_type_is page_type 13 then
            num_cells <-
              unpack_unsigned 2 (slice data (header_offset + 3)
                                       (header_offset + 5)) ;;
            pointers <-
              list_pointers (range (Z.min num_cells 20)) data header_offset ;;
            first <-
              (if num_cells >? 0 then
                 let first_ptr_offset := header_offset + 8 in
                 first_ptr <-
                   unpack_unsigned 2
                     (slice data first_ptr_offset (first_ptr_offset + 2)) ;;
                 if first_ptr <? len data then
                   r <- parse_cell data first_ptr ;; Ok (Some r)
                 else Ok None
               else Ok None) ;;
            Ok (Report (len data) present page_size
                       (hex_dump data 0 128) page_type name
                       (Some num_cells) pointers first)
          else
            Ok (Report (len data) present page_size
                       (hex_dump data 0 128) page_type name
                       None [] None))
  = Ok (Report (len data) present page_size (hex_dump data 0 128)
               (Some 13) (Some LeafTable) (Some 2)
               [PointerLine 0 p1 true; PointerLine 1 p2 true] (Some c)).
Proof.
  intros Hho Htype Hcount Hp1 Hp2 Hv1 Hv2 Hc.
  pose proof (getitem_ok_inside data header_offset x0d Hho Htype) as Hin.
  assert (Hlen : header_offset + 12 <= len data).
  { replace (header_offset + 12) with (header_offset + 10 + 2) in Hp2 |- * by lia.
    apply (unpack_u16_range data (header_offset + 10) p2); [lia | assumption]. }
  destruct (Z.ltb_spec header_offset (len data)); [|lia].
  rewrite Htype. cbn [bind].
  change (page_type_is (Some (byte_val x0d)) 13) with true. cbv iota zeta.
  rewrite Hcount. cbn [bind].
  change (range (Z.min 2 20)) with [0; 1]. cbn [list_pointers].
  replace (header_offset + 8 + 0 * 2) with (header_offset + 8) by lia.
  replace (header_offset + 8 + 1 * 2) with (header_offset + 10) by lia.
  replace (header_offset + 8 + 2) with (header_offset + 10) by lia.
  replace (header_offset + 10 + 2) with (header_offset + 12) by lia.
  destruct (Z.leb_spec (header_offset + 10) (len data)); [|lia].
  destruct (Z.leb_spec (header_offset + 12) (len data)); [|lia].
  rewrite Hp1, Hp2. cbn [bind].
  destruct (Z.ltb_spec p1 (len data)); [|lia].
  destruct (Z.ltb_spec p2 (len data)); [|lia].
  change (2 >? 0) with true. cbv iota.
  rewrite Hc. cbn [bind]. reflexivity.
Qed.

(** C4 (as the code has it): on a leaf-table page, at the start of the
    buffer or after a file header, with a declared cell count of 2 and two
    well-formed cells reachable through the pointer array, the run lists
    both pointers as valid and calls the cell parser on the first pointer
    only: exactly one cell is decoded, and its row id and column values
    are those of the first stored record. *)
Theorem analyze_leaf_page_first_cell
  (data : bytes) (p1 p2 rid1 rid2 : Z) (cols1 cols2 : list column) :
  let header_offset := if bytes_eqb (slice_to data 6) magic then 100 else 0 in
  getitem data header_offset = Ok x0d ->
  unpack_unsigned 2 (slice data (header_offset + 3) (header_offset + 5)) = Ok 2 ->
  unpack_unsigned 2 (slice data (header_offset + 8) (header_offset + 10)) = Ok p1 ->
  unpack_unsigned 2 (slice data (header_offset + 10) (header_offset + 12)) = Ok p2 ->
  cell_at data p1 rid1 cols1 ->
  cell_at data p2 rid2 cols2 ->
  exists r,
    analyze_buffer data = Ok r
    /\ page_type_name r = Some LeafTable
    /\ num_cells r = Some 2
    /\ cell_pointers r = [PointerLine 0 p1 true; PointerLine 1 p2 true]
    /\ first_cell r = Some (Some (stored_cell rid1 cols1))
    /\ decoded_cells r = [stored_cell rid1 cols1].
Proof.
  cbv zeta. intros Htype Hcount Hp1 Hp2 Hcell1 Hcell2.
  destruct (parse_cell_at data p1 rid1 cols1 Hcell1) as [Hparse Hv1].
  destruct (parse_cell_at data p2 rid2 cols2 Hcell2) as [_ Hv2].
  unfold analyze_buffer.
  destruct (bytes_eqb (slice_to data 6) magic).
  - assert (Hlen : 112 <= len data).
    { change 112 with (100 + 10 + 2).
      apply (unpack_u16_range data (100 + 10) p2); [lia | assumption]. }
    rewrite (unpack_u16_at data 16 18) by lia. cbn [bind].
    eexists. split.
    + apply (leaf_page_run data 100 true _ p1 p2 _ ltac:(lia)
                           Htype Hcount Hp1 Hp2 Hv1 Hv2 Hparse).
    + repeat split; reflexivity.
  - cbn [bind].
    eexists. split.
    + apply (leaf_page_run data 0 false None p1 p2 _ ltac:(lia)
                           Htype Hcount Hp1 Hp2 Hv1 Hv2 Hparse).
    + repeat split; reflexivity.
Qed.

Lemma analyze_leaf_page_first_cell_witness :
  (exists r,
      analyze_buffer leaf_page = Ok r
      /\ page_type_name r = Some LeafTable
      /\ num_cells r = Some 2
      /\ cell_pointers r = [PointerLine 0 4088 true; PointerLine 1 4080 true]
      /\ first_cell r = Some (Some (stored_cell 1 [ColInt 1 42; ColText [104; 105]]))
      /\ decoded_cells r = [stored_cell 1 [ColInt 1 42; ColText [104; 105]]])
  /\ (exists r,
         analyze_buffer headed_page = Ok r
         /\ page_type_name r = Some LeafTable
         /\ num_cells r = Some 2
         /\ cell_pointers r = [PointerLine 0 120 true; PointerLine 1 112 true]
         /\ first_cell r = Some (Some (stored_cell 1 [ColInt 1 42; ColText [104; 105]]))
         /\ decoded_cells r = [stored_cell 1 [ColInt 1 42; ColText [104; 105]]]).
Proof.
  split.
  - apply (analyze_leaf_page_first_cell
             leaf_page 4088 4080 1 2
             [ColInt 1 42; ColText [104; 105]] [ColInt 1 7; ColText [121; 111]]).
    + vm_compute. reflexivity.
    + vm_compute. reflexivity.
    + vm_compute. reflexivity.
    + vm_compute. reflexivity.
    + unfold cell_at, cell_ok.
      split; [split; [lia|split]|split; [lia|split]].
      * repeat constructor; try (cbn; lia); unfold scalar_value; lia.
      * vm_compute. reflexivity.
      * vm_compute. discriminate.
      * vm_compute. reflexivity.
    + unfold cell_at, cell_ok.
      split; [split; [lia|split]|split; [lia|split]].
      * repeat constructor; try (cbn; lia); unfold scalar_value; lia.
      * vm_compute. reflexivity.
      * vm_compute. discriminate.
      * vm_compute. reflexivity.
  - apply (analyze_leaf_page_first_cell
             headed_page 120 112 1 2
             [ColInt 1 42; ColText [104; 105]] [ColInt 1 7; ColText [121; 111]]).
    + vm_compute. reflexivity.
    + vm_compute. reflexivity.
    + vm_compute. reflexivity.
    + vm_compute. reflexivity.
    + unfold cell_at, cell_ok.
      split; [split; [lia|split]|split; [lia|split]].
      * repeat constructor; try (cbn; lia); unfold scalar_value; lia.
      * vm_compute. reflexivity.
      * vm_compute. discriminate.
      * vm_compute. reflexivity.
    + unfold cell_at, cell_ok.
      split; [split; [lia|split]|split; [lia|split]].
      * repeat constructor; try (cbn; lia); unfold scalar_value; lia.
      * vm_compute. reflexivity.
      * vm_compute. discriminate.
      * vm_compute. reflexivity.
Defined.

(** The first stored record of the synthetic page is [record_one]. *)
Example stored_record_one :
  stored_cell 1 [ColInt 1 42; ColText [104; 105]] = record_one
  /\ encode_cell 1 [ColInt 1 42; ColText [104; 105]] = cell_one
  /\ encode_cell 2 [ColInt 1 7; ColText [121; 111]] = cell_two.
Proof. repeat split; vm_compute; reflexivity. Qed.

(** After the file header the run reports the header as present and the
    same first record. *)
Example leaf_page_after_file_header :
  exists r,
    analyze_buffer headed_page = Ok r
    /\ header_present r = true
    /\ page_size r = Some 0
    /\ cell_pointers r = [PointerLine 0 120 true; PointerLine 1 112 true]
    /\ decoded_cells r = [record_one].
Proof.
  eexists. split; [vm_compute; reflexivity|].
  repeat split; reflexivity.
Qed.
